(** * Change detection of the Drive folder tracker (class [DiffTracker])

    A shallow embedding of [DiffTracker.detectChanges] and of the methods it
    calls ([findPossibleRename], [calculateNameSimilarity], [wasRenamed],
    [getModificationDetails], [getRevisionDetails]), followed by the
    properties of the change-detection engine.

    Conventions of the embedding.
    - JavaScript strings are [string]s: a character stands for one UTF-16
      code unit, the ASCII ones at their own code.  The tracker itself tells
      characters apart by equality and by the ASCII characters of its regular
      expressions only.  [String.prototype.toLowerCase], which can lengthen a
      string, is a parameter of the development; [JS.toLowerCase] is an
      instance for names of ASCII and Latin-1 characters, used to evaluate
      concrete inputs.
    - A JavaScript [Map] is an association list in insertion order: setting an
      existing key keeps its position and replaces its value.
    - A number obtained by dividing two non-negative integers is either a
      rational, [Infinity] (n/0 with n > 0) or [NaN] (0/0).  The comparison with
      the literal 0.8 is the exact comparison with 4/5: both operands of the
      source's division are string lengths, far below 2^50, where the rounded
      quotient exceeds the double 0.8 exactly when the exact one exceeds 4/5.
    - The [diff] package ([diff.diffChars]) is not part of the repository: it is
      a parameter of the development.  [Reference.diffChars] is an instance
      that yields a shortest edit script, used to evaluate concrete inputs.
    - [await]ed calls run in sequence, so the asynchronous methods are
      computations of a state-and-exception monad over the remote drive
      service and the logger's output.  The logger records its arguments and
      never throws.
    - [getFolderContents] recurses along the remote tree; its embedding takes
      a bound on the recursion depth and returns [None] when the bound is
      reached.  [getParentFolderName] and the [extractFolderId] of the update
      handler are embedded as well. *)

From Stdlib Require Import List String Ascii Bool Arith ZArith QArith Lia.
Import ListNotations.

Close Scope Q_scope.
Open Scope string_scope.
Open Scope list_scope.
Open Scope nat_scope.

(** ** JavaScript built-ins used by the tracker *)

Module JS.

(** Numbers produced by [a / b] for non-negative integers [a], [b]. *)
Inductive Number : Type :=
| NaN : Number
| Infinity : Number
| Finite (q : Q) : Number.

(** [a / b] on non-negative integers. *)
Definition div (a b : nat) : Number :=
  match b with
  | O => match a with O => NaN | S _ => Infinity end
  | S _ => Finite (Z.of_nat a # Pos.of_nat b)
  end.

(** [x > t] for a finite literal [t]; every comparison with [NaN] is false. *)
Definition gt (x : Number) (t : Q) : bool :=
  match x with
  | NaN => false
  | Infinity => true
  | Finite q => negb (Qle_bool q t)
  end.

(** Lower-casing of one code unit below 256: A-Z, and the Latin-1 capitals
    U+00C0-U+00DE except the multiplication sign U+00D7.  [toLowerCase] below
    is the instance of [String.prototype.toLowerCase] on such names. *)
Definition lowerChar (c : ascii) : ascii :=
  let n := nat_of_ascii c in
  if ((65 <=? n) && (n <=? 90)) || ((192 <=? n) && (n <=? 222) && negb (n =? 215))
  then ascii_of_nat (n + 32)
  else c.

Fixpoint toLowerCase (s : string) : string :=
  match s with
  | EmptyString => EmptyString
  | String c r => String (lowerChar c) (toLowerCase r)
  end.

(** The character class [[^/.]]. *)
Definition notSlashDot (c : ascii) : bool :=
  negb (Ascii.eqb c "/" || Ascii.eqb c ".").

Fixpoint allNotSlashDot (s : string) : bool :=
  match s with
  | EmptyString => true
  | String c r => notSlashDot c && allNotSlashDot r
  end.

Definition isEmpty (s : string) : bool :=
  match s with EmptyString => true | String _ _ => false end.

(** [s.replace(/\.[^/.]+$/, "")]: the leftmost position holding a dot that is
    followed, up to the end of the string, by one or more characters other
    than [/] and [.]; the match, when there is one, is removed. *)
Fixpoint replaceExtension (s : string) : string :=
  match s with
  | EmptyString => EmptyString
  | String c r =>
      if Ascii.eqb c "." && negb (isEmpty r) && allNotSlashDot r
      then EmptyString
      else String c (replaceExtension r)
  end.

(** [s.includes(sub)]. *)
Definition includes (s sub : string) : bool :=
  match index 0 sub s with Some _ => true | None => false end.

(** [a === b] on values that are a string or [undefined]. *)
Definition strictEqStr (a b : option string) : bool :=
  match a, b with
  | Some x, Some y => String.eqb x y
  | None, None => true
  | _, _ => false
  end.

(** [a === b] on values that are a number or [undefined]. *)
Definition strictEqNum (a b : option Z) : bool :=
  match a, b with
  | Some x, Some y => Z.eqb x y
  | None, None => true
  | _, _ => false
  end.

(** [new Map(entries)], [get], [has]; iteration follows the list. *)
Section MapOps.
Context {V : Type}.

Definition Map := list (string * V).

Fixpoint set (k : string) (v : V) (m : Map) : Map :=
  match m with
  | [] => [(k, v)]
  | (k', v') :: r =>
      if String.eqb k' k then (k', v) :: r else (k', v') :: set k v r
  end.

(** The entries of an iterable set one after the other onto [m]. *)
Definition setAll (entries : list (string * V)) (m : Map) : Map :=
  fold_left (fun m e => set (fst e) (snd e) m) entries m.

Definition newMap (entries : list (string * V)) : Map := setAll entries [].

Fixpoint get (k : string) (m : Map) : option V :=
  match m with
  | [] => None
  | (k', v) :: r => if String.eqb k' k then Some v else get k r
  end.

Definition has (k : string) (m : Map) : bool :=
  match get k m with Some _ => true | None => false end.
End MapOps.

End JS.

(** ** Data model *)

(** One entry of a snapshot, with the fields the detector reads.  [size] is
    absent for folders and native documents; the listing API sends it in
    canonical decimal form, so [===] on it is equality of the number. *)
Record Item : Type := {
  id : string;
  name : string;
  mimeType : option string;
  modifiedTime : string;
  parents : option (list string);
  size : option Z
}.

(** [item.parents?.[0]] *)
Definition parent0 (item : Item) : option string :=
  match parents item with
  | Some (p :: _) => Some p
  | _ => None
  end.

(** One component of the result of [diff.diffChars]. *)
Record Part : Type := {
  value : string;
  added : bool;
  removed : bool
}.

(** The object returned by [findPossibleRename]. *)
Record PossibleRename : Type := {
  oldFileName : string;
  similarity : JS.Number
}.

Record Revision : Type := {
  revisionId : string;
  revisionModifiedTime : string;
  lastModifyingUser : string
}.

(** The object returned by [getRevisionDetails] when the listing succeeds. *)
Record RevisionDetails : Type := {
  lastRevision : option Revision;
  revisionCount : nat
}.

(** The [details] object of [getModificationDetails].  [revisionInfo] is
    [None] when the object has no such property, [Some None] when the property
    holds [null]. *)
Record ModificationDetails : Type := {
  previousModifiedTime : string;
  newModifiedTime : string;
  previousSize : Z;
  newSize : Z;
  sizeDelta : Z;
  revisionInfo : option (option RevisionDetails)
}.

(** The change objects pushed by [detectChanges], one constructor per value
    of their [type] property. *)
Inductive Change : Type :=
| Renamed (item : Item) (oldName : string) (score : JS.Number)
| Added (item : Item)
| Modified (item : Item) (modificationDetails : ModificationDetails)
| Moved (item : Item) (oldParentId newParentId : option string)
| Removed (item : Item).

Definition changeItem (c : Change) : Item :=
  match c with
  | Renamed i _ _ | Added i | Modified i _ | Moved i _ _ | Removed i => i
  end.

Definition Snapshot := list Item.

Definition ids (s : Snapshot) : list string := map id s.

(** [response.data] of [driveService.revisions.list]. *)
Record RevisionsResponse : Type := {
  revisions : option (list Revision)
}.

(** The accumulator of the [reduce] in [calculateNameSimilarity]: the total
    length of the parts that are neither added nor removed. *)
Definition unchangedLength (changes : list Part) : nat :=
  fold_left
    (fun acc part =>
       acc + (if added part || removed part then 0 else String.length (value part)))
    changes 0.

(** ** The methods of [DiffTracker] *)

Section DiffTracker.

(** [diff.diffChars] of the [diff] package. *)
Variable diffChars : string -> string -> list Part.

(** [String.prototype.toLowerCase]. *)
Variable toLowerCase : string -> string.

(** The remote service behind [this.driveService]: its state, the values
    its calls reject with, and [revisions.list] for a file id. *)
Variable Drive : Type.
Variable Error : Type.
Variable revisionsList : string -> Drive -> (Error + RevisionsResponse) * Drive.

(** *** Name similarity and rename correlation *)

Definition calculateNameSimilarity (name1 name2 : string) : JS.Number :=
  let base1 := JS.replaceExtension name1 in
  let base2 := JS.replaceExtension name2 in
  let changes := diffChars (toLowerCase base1) (toLowerCase base2) in
  JS.div (unchangedLength changes)
         (Nat.max (String.length base1) (String.length base2)).

Definition threshold : Q := (4 # 5)%Q.

Fixpoint findPossibleRename (current : Item) (lastContents : list Item)
  : option PossibleRename :=
  match lastContents with
  | [] => None
  | oldFile :: rest =>
      if JS.strictEqStr (mimeType current) (mimeType oldFile)
         && JS.strictEqNum (size current) (size oldFile)
      then
        let sim := calculateNameSimilarity (name current) (name oldFile) in
        if JS.gt sim threshold
        then Some {| oldFileName := name oldFile; similarity := sim |}
        else findPossibleRename current rest
      else findPossibleRename current rest
  end.

(** [candidate] passes both tests of [findPossibleRename] for [current]. *)
Definition qualifies (current candidate : Item) : bool :=
  JS.strictEqStr (mimeType current) (mimeType candidate)
  && JS.strictEqNum (size current) (size candidate)
  && JS.gt (calculateNameSimilarity (name current) (name candidate)) threshold.

(** The object [findPossibleRename] returns when it stops at [candidate]. *)
Definition renameOf (current candidate : Item) : PossibleRename :=
  {| oldFileName := name candidate;
     similarity := calculateNameSimilarity (name current) (name candidate) |}.

Definition isRenamedFrom (n : string) (change : Change) : bool :=
  match change with
  | Renamed _ oldName _ => String.eqb oldName n
  | _ => false
  end.

Definition wasRenamed (item : Item) (changes : list Change) : bool :=
  existsb (isRenamedFrom (name item)) changes.

(** *** Asynchronous methods: state of the world and exceptions *)

Inductive LogEntry : Type :=
| LogError (message : string) (error : Error)
| LogWarn (message : string) (error : Error).

Record World : Type := {
  drive : Drive;
  logged : list LogEntry
}.

Inductive Outcome (A : Type) : Type :=
| Returned (a : A)
| Thrown (error : Error).
Arguments Returned {A} a.
Arguments Thrown {A} error.

Definition Async (A : Type) : Type := World -> Outcome A * World.

Definition ret {A : Type} (a : A) : Async A := fun w => (Returned a, w).

Definition bind {A B : Type} (m : Async A) (k : A -> Async B) : Async B :=
  fun w =>
    match m w with
    | (Returned a, w') => k a w'
    | (Thrown e, w') => (Thrown e, w')
    end.

(** [try { body } catch (error) { handler }] *)
Definition tryCatch {A : Type} (body : Async A) (handler : Error -> Async A)
  : Async A :=
  fun w =>
    match body w with
    | (Returned a, w') => (Returned a, w')
    | (Thrown e, w') => handler e w'
    end.

Local Notation "x <- m ;; k" := (bind m (fun x => k))
  (at level 61, m at next level, right associativity).
Local Notation "m ;;; k" := (bind m (fun _ => k))
  (at level 61, right associativity).

(** [await this.driveService.revisions.list({ fileId, ... })] *)
Definition awaitRevisionsList (fileId : string) : Async RevisionsResponse :=
  fun w =>
    match revisionsList fileId (drive w) with
    | (inr response, d) => (Returned response, {| drive := d; logged := logged w |})
    | (inl e, d) => (Thrown e, {| drive := d; logged := logged w |})
    end.

Definition log (entry : LogEntry) : Async unit :=
  fun w => (Returned tt, {| drive := drive w; logged := logged w ++ [entry] |}).

(** [xs.slice(-1)[0]] *)
Fixpoint lastElement {A : Type} (xs : list A) : option A :=
  match xs with
  | [] => None
  | [x] => Some x
  | _ :: r => lastElement r
  end.

Definition getRevisionDetails (fileId : string) : Async (option RevisionDetails) :=
  tryCatch
    (response <- awaitRevisionsList fileId ;;
     ret (Some {|
       lastRevision :=
         match revisions response with
         | Some rs => lastElement rs
         | None => None
         end;
       revisionCount :=
         match revisions response with
         | Some rs => List.length rs
         | None => 0
         end |}))
    (fun error =>
       log (LogError ("Error fetching revision details for file " ++ fileId ++ ":")
                     error) ;;;
       ret None).

(** [item.size || 0] *)
Definition sizeOrZero (item : Item) : Z :=
  match size item with Some n => n | None => 0%Z end.

(** [details.revisionInfo = revisionDetails] *)
Definition setRevisionInfo (details : ModificationDetails)
    (revisionDetails : option RevisionDetails) : ModificationDetails :=
  {| previousModifiedTime := previousModifiedTime details;
     newModifiedTime := newModifiedTime details;
     previousSize := previousSize details;
     newSize := newSize details;
     sizeDelta := sizeDelta details;
     revisionInfo := Some revisionDetails |}.

(** [current.mimeType?.includes("document")] *)
Definition isDocument (current : Item) : bool :=
  match mimeType current with
  | Some m => JS.includes m "document"
  | None => false
  end.

(** The [details] literal at the head of [getModificationDetails]. *)
Definition baseDetails (current previous : Item) : ModificationDetails :=
  {| previousModifiedTime := modifiedTime previous;
     newModifiedTime := modifiedTime current;
     previousSize := sizeOrZero previous;
     newSize := sizeOrZero current;
     sizeDelta := (sizeOrZero current - sizeOrZero previous)%Z;
     revisionInfo := None |}.

Definition getModificationDetails (current previous : Item)
  : Async ModificationDetails :=
  let details := baseDetails current previous in
  if isDocument current then
    tryCatch
      (revisionDetails <- getRevisionDetails (id current) ;;
       ret (setRevisionInfo details revisionDetails))
      (fun error =>
         log (LogWarn ("Could not fetch revision details for " ++ name current ++ ":")
                      error) ;;;
         ret details)
  else ret details.

(** *** Change detection *)

(** The key of [currentNameMap] and [lastNameMap]. *)
Definition nameKey (item : Item) : string :=
  (match parent0 item with
   | Some p => if JS.isEmpty p then "root" else p
   | None => "root"
   end) ++ "-" ++ name item.

Definition idEntries (contents : list Item) : list (string * Item) :=
  map (fun item => (id item, item)) contents.

Definition nameEntries (contents : list Item) : list (string * Item) :=
  map (fun item => (nameKey item, item)) contents.

(** Body of the loop over [currentMap]; [changes] is the array so far. *)
Definition checkCurrent (lastContents : list Item) (lastMap : JS.Map)
    (changes : list Change) (entry : string * Item) : Async (list Change) :=
  let current := snd entry in
  match JS.get (fst entry) lastMap with
  | None =>
      match findPossibleRename current lastContents with
      | Some possibleRename =>
          ret (changes ++ [Renamed current (oldFileName possibleRename)
                                   (similarity possibleRename)])
      | None => ret (changes ++ [Added current])
      end
  | Some last =>
      changes1 <-
        (if negb (String.eqb (modifiedTime current) (modifiedTime last))
         then modificationDetails <- getModificationDetails current last ;;
              ret (changes ++ [Modified current modificationDetails])
         else ret changes) ;;
      if negb (JS.strictEqStr (parent0 current) (parent0 last))
      then ret (changes1 ++ [Moved current (parent0 last) (parent0 current)])
      else ret changes1
  end.

Fixpoint forEachEntry (body : list Change -> string * Item -> Async (list Change))
    (entries : list (string * Item)) (changes : list Change)
  : Async (list Change) :=
  match entries with
  | [] => ret changes
  | entry :: rest =>
      changes' <- body changes entry ;; forEachEntry body rest changes'
  end.

(** Body of the loop over [lastMap]. *)
Definition checkRemoved (currentMap : JS.Map (V := Item))
    (changes : list Change) (entry : string * Item) : list Change :=
  if negb (JS.has (fst entry) currentMap) && negb (wasRenamed (snd entry) changes)
  then changes ++ [Removed (snd entry)]
  else changes.

(** [lastContents] is [None] for [null] (and every falsy argument); an
    array, empty or not, is truthy. *)
Definition detectChanges (currentContents : list Item)
    (lastContents : option (list Item)) : Async (list Change) :=
  match lastContents with
  | None => ret []
  | Some lastContents =>
      let currentMap := JS.newMap (idEntries currentContents) in
      let lastMap := JS.newMap (idEntries lastContents) in
      let currentNameMap := JS.newMap (nameEntries currentContents) in
      let lastNameMap := JS.newMap (nameEntries lastContents) in
      changes <- forEachEntry (checkCurrent lastContents lastMap) currentMap [] ;;
      ret (fold_left (checkRemoved currentMap) lastMap changes)
  end.

(** *** Vocabulary of the properties *)

(** The change is about the item with id [i]. *)
Definition concerns (i : string) (change : Change) : bool :=
  String.eqb (id (changeItem change)) i.

(** [details] is a result of [getModificationDetails current last]. *)
Definition producedBy (current last : Item) (details : ModificationDetails) : Prop :=
  exists w w', getModificationDetails current last w = (Returned details, w').

(** What one iteration of the loop over [currentMap] pushes for [entry]. *)
Definition entryOut (lastContents : list Item) (lastMap : JS.Map)
    (entry : string * Item) (out : list Change) : Prop :=
  let current := snd entry in
  match JS.get (fst entry) lastMap with
  | None =>
      out = [match findPossibleRename current lastContents with
             | Some r => Renamed current (oldFileName r) (similarity r)
             | None => Added current
             end]
  | Some last =>
      exists modified,
        (if String.eqb (modifiedTime current) (modifiedTime last)
         then modified = []
         else exists details,
             producedBy current last details
             /\ modified = [Modified current details])
        /\ out = modified
                 ++ (if JS.strictEqStr (parent0 current) (parent0 last) then []
                     else [Moved current (parent0 last) (parent0 current)])
  end.

(** What the loop over [lastMap] pushes after [changes]. *)
Definition removedChanges (currentMap lastMap : JS.Map (V := Item))
    (changes : list Change) : list Change :=
  map (fun entry => Removed (snd entry))
      (filter (fun entry =>
                 negb (JS.has (fst entry) currentMap)
                 && negb (wasRenamed (snd entry) changes))
              lastMap).

(** *** Folder traversal and parent names *)

(** [throw error] *)
Definition throw {A : Type} (error : Error) : Async A := fun w => (Thrown error, w).

(** An element of the array returned by [getFolderContents]: the listed
    file object with the [fullPath] property the traversal adds to it. *)
Record Listed : Type := {
  listedFile : Item;
  fullPath : string
}.

(** [response.data] of [driveService.files.get]. *)
Record FileData : Type := {
  dataParents : option (list string);
  dataName : option string
}.

(** [files.list] for the children of a folder id ([response.data.files]) and
    [files.get] for a file id and a [fields] selector. *)
Variable filesList : string -> Drive -> (Error + list Item) * Drive.
Variable filesGet : string -> string -> Drive -> (Error + FileData) * Drive.

Definition awaitFilesList (folderId : string) : Async (list Item) :=
  fun w =>
    match filesList folderId (drive w) with
    | (inr files, d) => (Returned files, {| drive := d; logged := logged w |})
    | (inl e, d) => (Thrown e, {| drive := d; logged := logged w |})
    end.

Definition awaitFilesGet (fileId fields : string) : Async FileData :=
  fun w =>
    match filesGet fileId fields (drive w) with
    | (inr data, d) => (Returned data, {| drive := d; logged := logged w |})
    | (inl e, d) => (Thrown e, {| drive := d; logged := logged w |})
    end.

Definition folderMimeType : string := "application/vnd.google-apps.folder".

(** [file.mimeType === "application/vnd.google-apps.folder"] *)
Definition isFolder (file : Item) : bool :=
  JS.strictEqStr (mimeType file) (Some folderMimeType).

(** [parentPath ? `${parentPath}/${file.name}` : file.name] *)
Definition pathOf (parentPath : string) (file : Item) : string :=
  if JS.isEmpty parentPath then name file else parentPath ++ "/" ++ name file.

(** The [for] loop of [processFolder] over the listed files; [recurse] is
    the recursive call, [allFiles] the array so far. *)
Fixpoint eachFile
    (recurse : string -> string -> list Listed -> Async (option (list Listed)))
    (parentPath : string) (files : list Item) (allFiles : list Listed)
  : Async (option (list Listed)) :=
  match files with
  | [] => ret (Some allFiles)
  | file :: rest =>
      let path := pathOf parentPath file in
      let allFiles' := allFiles ++ [{| listedFile := file; fullPath := path |}] in
      if isFolder file then
        below <- recurse (id file) path allFiles' ;;
        match below with
        | Some allFiles'' => eachFile recurse parentPath rest allFiles''
        | None => ret None
        end
      else eachFile recurse parentPath rest allFiles'
  end.

(** The inner [processFolder] of [getFolderContents], with [allFiles] passed
    along.  The recursion follows the remote tree, so it is bounded by
    [fuel]: the result is [None] when the bound is reached. *)
Fixpoint processFolder (fuel : nat) (currentFolderId parentPath : string)
    (allFiles : list Listed) : Async (option (list Listed)) :=
  match fuel with
  | O => ret None
  | S fuel' =>
      files <- awaitFilesList currentFolderId ;;
      eachFile (processFolder fuel') parentPath files allFiles
  end.

Definition getFolderContents (fuel : nat) (folderId : string)
  : Async (option (list Listed)) :=
  tryCatch
    (processFolder fuel folderId "" [])
    (fun error =>
       log (LogError "Error fetching folder contents recursively:" error) ;;;
       throw error).

(** The result is [None] for [undefined] (a parent resource without name). *)
Definition getParentFolderName (fileId : string) : Async (option string) :=
  tryCatch
    (response <- awaitFilesGet fileId "parents" ;;
     match dataParents response with
     | Some (parentId :: _) =>
         parent <- awaitFilesGet parentId "name" ;;
         ret (dataName parent)
     | _ => ret (Some "root")
     end)
    (fun error =>
       log (LogError "Error fetching parent folder name:" error) ;;;
       ret (Some "unknown")).

(** The files pushed for the listing [files] of a folder whose path is
    [parentPath], when the service is the stateless listing [children]:
    each file, followed by what its own listing pushes if it is a folder. *)
Inductive Walk (children : string -> list Item)
  : string -> list Item -> list Listed -> Prop :=
| walk_done : forall parentPath, Walk children parentPath [] []
| walk_file : forall parentPath file rest out,
    isFolder file = false ->
    Walk children parentPath rest out ->
    Walk children parentPath (file :: rest)
         ({| listedFile := file; fullPath := pathOf parentPath file |} :: out)
| walk_folder : forall parentPath file rest below out,
    isFolder file = true ->
    Walk children (pathOf parentPath file) (children (id file)) below ->
    Walk children parentPath rest out ->
    Walk children parentPath (file :: rest)
         ({| listedFile := file; fullPath := pathOf parentPath file |}
            :: below ++ out).

End DiffTracker.

Arguments Returned {Error A} a.
Arguments Thrown {Error A} error.
Arguments drive {Drive Error} w.
Arguments logged {Drive Error} w.
Arguments LogError {Error} message error.
Arguments LogWarn {Error} message error.
Arguments ret {Drive Error A} a w.
Arguments bind {Drive Error A B} m k w.
Arguments tryCatch {Drive Error A} body handler w.
Arguments log {Drive Error} entry w.
Arguments awaitRevisionsList {Drive Error} revisionsList fileId w.
Arguments getRevisionDetails {Drive Error} revisionsList fileId w.
Arguments getModificationDetails {Drive Error} revisionsList current previous w.
Arguments checkCurrent diffChars toLowerCase {Drive Error} revisionsList lastContents lastMap changes entry w.
Arguments forEachEntry {Drive Error} body entries changes w.
Arguments detectChanges diffChars toLowerCase {Drive Error} revisionsList currentContents lastContents w.
Arguments producedBy {Drive Error} revisionsList current last details.
Arguments entryOut diffChars toLowerCase {Drive Error} revisionsList lastContents lastMap entry out.
Arguments throw {Drive Error A} error w.
Arguments awaitFilesList {Drive Error} filesList folderId w.
Arguments awaitFilesGet {Drive Error} filesGet fileId fields w.
Arguments eachFile {Drive Error} recurse parentPath files allFiles w.
Arguments processFolder {Drive Error} filesList fuel currentFolderId parentPath allFiles w.
Arguments getFolderContents {Drive Error} filesList fuel folderId w.
Arguments getParentFolderName {Drive Error} filesGet fileId w.

(** A remote service without state that answers every listing from the
    table [children]. *)
Definition listing {Drive Error : Type} (children : string -> list Item)
    (folderId : string) (d : Drive) : (Error + list Item) * Drive :=
  (inr (children folderId), d).

(** ** The folder link of the update handler *)

(** The character class [[^/?]]. *)
Definition notSlashQuestion (c : ascii) : bool :=
  negb (Ascii.eqb c "/" || Ascii.eqb c "?").

Fixpoint takeWhile (p : ascii -> bool) (s : string) : string :=
  match s with
  | EmptyString => EmptyString
  | String c r => if p c then String c (takeWhile p r) else EmptyString
  end.

(** What follows a maximal run of characters passing [p]: nothing, or a
    first character that fails [p]. *)
Definition stopsAt (p : ascii -> bool) (post : string) : Prop :=
  post = "" \/ exists c r, post = String c r /\ p c = false.

(** The rest of [s] after the literal [p], when [s] starts with it. *)
Fixpoint afterPrefix (p s : string) : option string :=
  match p with
  | EmptyString => Some s
  | String c p' =>
      match s with
      | EmptyString => None
      | String d s' => if Ascii.eqb c d then afterPrefix p' s' else None
      end
  end.

(** The capture of [/folders\/([^/?]+)/] for a match starting at the head
    of [s]: the longest run of characters other than [/] and [?] behind the
    literal, which must not be empty. *)
Definition matchFoldersHere (s : string) : option string :=
  match afterPrefix "folders/" s with
  | Some rest =>
      let capture := takeWhile notSlashQuestion rest in
      if JS.isEmpty capture then None else Some capture
  | None => None
  end.

(** [folderLink.match(/folders\/([^/?]+)/)]: group 1 of the leftmost match. *)
Fixpoint matchFolders (s : string) : option string :=
  match matchFoldersHere s with
  | Some capture => Some capture
  | None =>
      match s with
      | EmptyString => None
      | String _ r => matchFolders r
      end
  end.

(** The settled promise of [extractFolderId]. *)
Inductive Extracted : Type :=
| FolderId (folderId : string)
| InvalidLink (message : string).

Definition extractFolderId (folderLink : string) : Extracted :=
  match matchFolders folderLink with
  | None => InvalidLink "Invalid Google Drive folder link"
  | Some folderId => FolderId folderId
  end.

(** ** A reference instance of the parameters

    [Reference.diffChars] returns a shortest edit script between its
    arguments, one component per character (the [diff] package returns a
    shortest script too, with runs of equal kind joined in one component; the
    tracker only sums the lengths of the unchanged components).  The reference
    drive service has no state and rejects every [revisions.list] call. *)

Module Reference.

Definition keep (c : ascii) : Part :=
  {| value := String c EmptyString; added := false; removed := false |}.
Definition ins (c : ascii) : Part :=
  {| value := String c EmptyString; added := true; removed := false |}.
Definition del (c : ascii) : Part :=
  {| value := String c EmptyString; added := false; removed := true |}.

Fixpoint script (a b : list ascii) : list Part :=
  match a with
  | [] => map ins b
  | x :: a' =>
      (fix inner (b : list ascii) : list Part :=
         match b with
         | [] => map del a
         | y :: b' =>
             if Ascii.eqb x y then keep x :: script a' b'
             else
               let viaDel := del x :: script a' b in
               let viaIns := ins y :: inner b' in
               if unchangedLength viaIns <=? unchangedLength viaDel
               then viaDel else viaIns
         end) b
  end.

Definition diffChars (oldStr newStr : string) : list Part :=
  script (list_ascii_of_string oldStr) (list_ascii_of_string newStr).

Definition Drive : Type := unit.
Definition Error : Type := string.

Definition unavailable (fileId : string) (d : Drive)
  : (Error + RevisionsResponse) * Drive :=
  (inl "503 backend error", d).

Definition world0 : World Drive Error := {| drive := tt; logged := [] |}.

Definition similarityOf : string -> string -> JS.Number :=
  calculateNameSimilarity diffChars JS.toLowerCase.

Definition run (currentContents : list Item) (lastContents : option (list Item))
  : Outcome Error (list Change) :=
  fst (detectChanges diffChars JS.toLowerCase unavailable currentContents lastContents world0).

End Reference.

(** Items of the worked examples. *)
Module Sample.

Definition file (i n : string) : Item :=
  {| id := i; name := n; mimeType := Some "text/plain";
     modifiedTime := "2024-01-01T00:00:00.000Z";
     parents := Some ["root-folder"]; size := Some 10%Z |}.

Definition report : Item := file "1" "report.txt".
Definition report1 : Item := file "2" "report1.txt".
Definition report2 : Item := file "3" "report2.txt".
Definition reportNew : Item := file "4" "report.txt".
Definition notes : Item := file "5" "notes.txt".
Definition dotEnv : Item := file "6" ".env".
Definition gitignore : Item := file "7" ".gitignore".


End Sample.

(** A lower-casing that lengthens a name.  In this instance the character of
    code 128 stands for U+0130 (capital I with dot above) and the character
    of code 129 for U+0307 (combining dot above): JavaScript lower-cases the
    one code unit U+0130 to the two code units U+0069 U+0307.  The other
    characters are lower-cased as in [JS.lowerChar]. *)
Module Dotted.

Definition capitalI : ascii := ascii_of_nat 128.
Definition dotAbove : ascii := ascii_of_nat 129.

Fixpoint toLowerCase (s : string) : string :=
  match s with
  | EmptyString => EmptyString
  | String c r =>
      if Ascii.eqb c capitalI
      then String "i" (String dotAbove (toLowerCase r))
      else String (JS.lowerChar c) (toLowerCase r)
  end.

(** The name made of two U+0130 and the extension [.txt]. *)
Definition twoCapitals : string := String capitalI (String capitalI ".txt").

End Dotted.

(** Remote services of the worked inputs: a stateless listing of a small
    tree (folder [docs] holding [a.txt] and the folder [old], which holds
    [b.txt]), and a [files.get] that knows the parent of [a.txt]. *)
Module SampleDrive.

Definition folder (i n : string) : Item :=
  {| id := i; name := n; mimeType := Some folderMimeType;
     modifiedTime := "2024-01-01T00:00:00.000Z";
     parents := None; size := None |}.

Definition children (folderId : string) : list Item :=
  if String.eqb folderId "root-folder" then [folder "d1" "docs"; Sample.notes]
  else if String.eqb folderId "d1" then [Sample.file "a" "a.txt"; folder "d2" "old"]
  else if String.eqb folderId "d2" then [Sample.file "b" "b.txt"]
  else [].

Definition rank (folderId : string) : nat :=
  if String.eqb folderId "root-folder" then 3
  else if String.eqb folderId "d1" then 2
  else if String.eqb folderId "d2" then 1
  else 0.

Definition filesList (folderId : string) (d : unit)
  : (string + list Item) * unit :=
  (inr (children folderId), d).

Definition filesGet (fileId fields : string) (d : unit)
  : (string + FileData) * unit :=
  if String.eqb fileId "a" then
    (inr {| dataParents := Some ["d1"]; dataName := None |}, d)
  else if String.eqb fileId "d1" then
    (inr {| dataParents := None; dataName := Some "docs" |}, d)
  else (inl "404 not found", d).

(** [report.txt] of [Sample] after an edit and a move to another folder. *)
Definition reportEdited : Item :=
  {| id := "1"; name := "report.txt"; mimeType := Some "text/plain";
     modifiedTime := "2024-02-02T00:00:00.000Z";
     parents := Some ["archive"]; size := Some 25%Z |}.



End SampleDrive.

(** * Properties *)

(** Side conditions on the literal snapshots of the worked inputs. *)
Ltac distinct_ids :=
  repeat (constructor; [simpl; intuition discriminate|]); constructor.

Ltac absent_id := simpl; intuition discriminate.

(** ** Insertion-ordered maps *)

Section MapFacts.
Context {V : Type}.
Implicit Types (m : JS.Map (V := V)) (k : string) (v : V).
Implicit Types (entries : list (string * V)).

Lemma get_set : forall m k0 v k,
    JS.get k (JS.set k0 v m) = if String.eqb k0 k then Some v else JS.get k m.
Proof.
  induction m as [|[k' v'] r IH]; intros k0 v k; simpl.
  - reflexivity.
  - destruct (String.eqb k' k0) eqn:E0; simpl.
    + apply String.eqb_eq in E0; subst k'.
      destruct (String.eqb k0 k); reflexivity.
    + rewrite IH. destruct (String.eqb k' k) eqn:E1.
      * apply String.eqb_eq in E1; subst k'.
        rewrite String.eqb_sym, E0. reflexivity.
      * reflexivity.
Qed.

Lemma in_set : forall m k0 v0 e,
    In e (JS.set k0 v0 m) -> e = (k0, v0) \/ In e m.
Proof.
  induction m as [|[k' v'] r IH]; intros k0 v0 e; simpl.
  - intros [H|[]]; auto.
  - destruct (String.eqb k' k0) eqn:E0; simpl.
    + apply String.eqb_eq in E0; subst k'. intros [H|H]; auto.
    + intros [H|H]; auto. destruct (IH _ _ _ H); auto.
Qed.

Lemma keys_set_in : forall m k0 v0 k,
    In k (map fst (JS.set k0 v0 m)) <-> k = k0 \/ In k (map fst m).
Proof.
  induction m as [|[k' v'] r IH]; intros k0 v0 k; simpl.
  - intuition.
  - destruct (String.eqb k' k0) eqn:E0; simpl.
    + apply String.eqb_eq in E0; subst k'. intuition.
    + rewrite IH. intuition.
Qed.

Lemma keys_set_nodup : forall m k0 v0,
    NoDup (map fst m) -> NoDup (map fst (JS.set k0 v0 m)).
Proof.
  induction m as [|[k' v'] r IH]; intros k0 v0 Hnd; simpl.
  - constructor; [intros [] | constructor].
  - inversion Hnd as [|? ? Hnotin Hnd']; subst.
    destruct (String.eqb k' k0) eqn:E0; simpl.
    + constructor; assumption.
    + constructor.
      * rewrite keys_set_in. intros [H|H]; [|contradiction].
        apply String.eqb_neq in E0. congruence.
      * apply IH; assumption.
Qed.

Lemma set_fresh : forall m k0 v0,
    ~ In k0 (map fst m) -> JS.set k0 v0 m = m ++ [(k0, v0)].
Proof.
  induction m as [|[k' v'] r IH]; intros k0 v0 Hfresh; simpl in *.
  - reflexivity.
  - destruct (String.eqb k' k0) eqn:E0.
    + apply String.eqb_eq in E0. tauto.
    + rewrite IH by tauto. reflexivity.
Qed.

Lemma get_none_iff : forall m k,
    JS.get k m = None <-> ~ In k (map fst m).
Proof.
  induction m as [|[k' v'] r IH]; intros k; simpl.
  - tauto.
  - destruct (String.eqb k' k) eqn:E.
    + apply String.eqb_eq in E. split; [discriminate | tauto].
    + apply String.eqb_neq in E. rewrite IH. tauto.
Qed.

Lemma get_in : forall m k v, JS.get k m = Some v -> In (k, v) m.
Proof.
  induction m as [|[k' v'] r IH]; intros k v; simpl.
  - discriminate.
  - destruct (String.eqb k' k) eqn:E.
    + apply String.eqb_eq in E. intros H; inversion H; subst; auto.
    + auto.
Qed.

Lemma in_get : forall m k v,
    NoDup (map fst m) -> In (k, v) m -> JS.get k m = Some v.
Proof.
  induction m as [|[k' v'] r IH]; intros k v Hnd Hin; simpl in *.
  - contradiction.
  - inversion Hnd as [|? ? Hnotin Hnd']; subst.
    destruct Hin as [Heq|Hin].
    + inversion Heq; subst. rewrite String.eqb_refl. reflexivity.
    + destruct (String.eqb k' k) eqn:E.
      * apply String.eqb_eq in E; subst k'.
        exfalso. apply Hnotin. apply (in_map fst) in Hin. exact Hin.
      * apply IH; assumption.
Qed.

Lemma has_true_iff : forall m k, JS.has k m = true <-> In k (map fst m).
Proof.
  intros m k. unfold JS.has. pose proof (get_none_iff m k) as H.
  destruct (JS.get k m).
  - split; [intros _ | reflexivity].
    destruct (in_dec string_dec k (map fst m)) as [Hi|Hn]; [exact Hi|].
    apply H in Hn. discriminate.
  - split; [discriminate | intros Hi]. exfalso. apply H; auto.
Qed.

Lemma setAll_keys : forall entries m k,
    In k (map fst (JS.setAll entries m)) <->
    In k (map fst m) \/ In k (map fst entries).
Proof.
  induction entries as [|[k0 v0] r IH]; intros m k; simpl.
  - tauto.
  - unfold JS.setAll in *. simpl. rewrite IH, keys_set_in. intuition.
Qed.

Lemma setAll_nodup : forall entries m,
    NoDup (map fst m) -> NoDup (map fst (JS.setAll entries m)).
Proof.
  induction entries as [|[k0 v0] r IH]; intros m Hnd; simpl.
  - exact Hnd.
  - apply IH, keys_set_nodup, Hnd.
Qed.

Lemma setAll_in : forall entries m e,
    In e (JS.setAll entries m) -> In e m \/ In e entries.
Proof.
  induction entries as [|[k0 v0] r IH]; intros m e Hin; simpl in *.
  - auto.
  - apply IH in Hin. destruct Hin as [Hin|Hin]; auto.
    apply in_set in Hin. destruct Hin; auto.
Qed.

Lemma setAll_fresh : forall entries m,
    NoDup (map fst m ++ map fst entries) -> JS.setAll entries m = m ++ entries.
Proof.
  induction entries as [|[k0 v0] r IH]; intros m Hnd; simpl in *.
  - rewrite app_nil_r. reflexivity.
  - assert (Hfresh : ~ In k0 (map fst m)).
    { intros Hin. apply NoDup_remove_2 in Hnd. apply Hnd.
      apply in_or_app. auto. }
    rewrite set_fresh by exact Hfresh.
    rewrite IH.
    + rewrite <- app_assoc. reflexivity.
    + rewrite map_app. simpl. rewrite <- app_assoc. exact Hnd.
Qed.

Lemma newMap_keys : forall entries k,
    In k (map fst (JS.newMap entries)) <-> In k (map fst entries).
Proof.
  intros entries k. unfold JS.newMap.
  rewrite setAll_keys. simpl. tauto.
Qed.

Lemma newMap_nodup : forall entries, NoDup (map fst (JS.newMap entries)).
Proof.
  intros entries. apply (setAll_nodup entries []). constructor.
Qed.

Lemma newMap_in : forall entries e, In e (JS.newMap entries) -> In e entries.
Proof.
  intros entries e Hin. apply (setAll_in entries []) in Hin.
  destruct Hin as [[]|Hin]; exact Hin.
Qed.

Lemma newMap_fresh : forall entries,
    NoDup (map fst entries) -> JS.newMap entries = entries.
Proof.
  intros entries Hnd. apply (setAll_fresh entries []). exact Hnd.
Qed.

End MapFacts.

(** ** The id index of a snapshot *)

Lemma idEntries_keys : forall l, map fst (idEntries l) = ids l.
Proof.
  intros l. unfold idEntries, ids. rewrite map_map. reflexivity.
Qed.

Lemma idEntries_in : forall l e,
    In e (idEntries l) -> fst e = id (snd e) /\ In (snd e) l.
Proof.
  intros l e Hin. unfold idEntries in Hin. apply in_map_iff in Hin.
  destruct Hin as [x [Hx Hin]]. subst e. simpl. auto.
Qed.

Lemma idMap_in : forall l e,
    In e (JS.newMap (idEntries l)) -> fst e = id (snd e) /\ In (snd e) l.
Proof.
  intros l e Hin. apply idEntries_in, newMap_in, Hin.
Qed.

Lemma idMap_get_self : forall l e,
    In e (JS.newMap (idEntries l)) ->
    JS.get (fst e) (JS.newMap (idEntries l)) = Some (snd e).
Proof.
  intros l [k v] Hin. simpl. apply in_get; [apply newMap_nodup | exact Hin].
Qed.

Lemma idMap_get_none : forall l k,
    JS.get k (JS.newMap (idEntries l)) = None <-> ~ In k (ids l).
Proof.
  intros l k. rewrite get_none_iff, newMap_keys, idEntries_keys. tauto.
Qed.

Lemma idMap_has : forall l k,
    JS.has k (JS.newMap (idEntries l)) = true <-> In k (ids l).
Proof.
  intros l k. rewrite has_true_iff, newMap_keys, idEntries_keys. tauto.
Qed.

Lemma idMap_nodup : forall l,
    NoDup (ids l) -> JS.newMap (idEntries l) = idEntries l.
Proof.
  intros l Hnd. apply newMap_fresh. rewrite idEntries_keys. exact Hnd.
Qed.

Lemma idMap_get_item : forall l x,
    NoDup (ids l) -> In x l -> JS.get (id x) (JS.newMap (idEntries l)) = Some x.
Proof.
  intros l x Hnd Hin. apply in_get; [apply newMap_nodup|].
  rewrite idMap_nodup by exact Hnd.
  unfold idEntries. apply in_map_iff. exists x. auto.
Qed.

Lemma nodup_ids_eq : forall l x y,
    NoDup (ids l) -> In x l -> In y l -> id x = id y -> x = y.
Proof.
  induction l as [|a l IH]; intros x y Hnd Hx Hy Heq; simpl in *.
  - contradiction.
  - inversion Hnd as [|? ? Hnotin Hnd']; subst.
    destruct Hx as [Hx|Hx], Hy as [Hy|Hy]; subst.
    + reflexivity.
    + exfalso. apply Hnotin. rewrite Heq. apply in_map, Hy.
    + exfalso. apply Hnotin. rewrite <- Heq. apply in_map, Hx.
    + apply IH; assumption.
Qed.

(** ** Rename correlation *)

Section Correlation.
Variable diffChars : string -> string -> list Part.
Variable toLowerCase : string -> string.

Lemma findPossibleRename_step : forall current oldFile rest,
    findPossibleRename diffChars toLowerCase current (oldFile :: rest) =
    if qualifies diffChars toLowerCase current oldFile then Some (renameOf diffChars toLowerCase current oldFile)
    else findPossibleRename diffChars toLowerCase current rest.
Proof.
  intros current oldFile rest. unfold qualifies, renameOf. simpl.
  destruct (JS.strictEqStr (mimeType current) (mimeType oldFile)
            && JS.strictEqNum (size current) (size oldFile)); simpl;
    [destruct (JS.gt _ threshold)|]; reflexivity.
Qed.

Lemma findPossibleRename_first : forall current before candidate after,
    Forall (fun old => qualifies diffChars toLowerCase current old = false) before ->
    qualifies diffChars toLowerCase current candidate = true ->
    findPossibleRename diffChars toLowerCase current (before ++ candidate :: after)
    = Some (renameOf diffChars toLowerCase current candidate).
Proof.
  intros current before candidate after Hbefore Hq.
  induction Hbefore as [|old before Hold _ IH].
  - simpl app. rewrite findPossibleRename_step, Hq. reflexivity.
  - simpl app. rewrite findPossibleRename_step, Hold. exact IH.
Qed.

Lemma findPossibleRename_none : forall current lastContents,
    Forall (fun old => qualifies diffChars toLowerCase current old = false) lastContents ->
    findPossibleRename diffChars toLowerCase current lastContents = None.
Proof.
  intros current lastContents Hall.
  induction Hall as [|old rest Hold _ IH].
  - reflexivity.
  - rewrite findPossibleRename_step, Hold. exact IH.
Qed.

(** Every list with a qualifying item splits at its first one. *)
Lemma first_qualifying : forall current lastContents candidate,
    In candidate lastContents -> qualifies diffChars toLowerCase current candidate = true ->
    exists before first after,
      lastContents = before ++ first :: after
      /\ Forall (fun old => qualifies diffChars toLowerCase current old = false) before
      /\ qualifies diffChars toLowerCase current first = true.
Proof.
  intros current lastContents candidate.
  induction lastContents as [|old rest IH]; intros Hin Hq.
  - contradiction.
  - destruct (qualifies diffChars toLowerCase current old) eqn:Hold.
    + exists [], old, rest. repeat split; auto.
    + destruct Hin as [Heq|Hin]; [congruence|].
      destruct (IH Hin Hq) as [before [first [after [Heq [Hb Hf]]]]].
      exists (old :: before), first, after. subst rest.
      repeat split; auto.
Qed.

(** The first qualifying item of a list is determined by the list. *)
Lemma first_qualifying_unique :
  forall current before first after before' first' after',
    before ++ first :: after = before' ++ first' :: after' ->
    Forall (fun old => qualifies diffChars toLowerCase current old = false) before ->
    qualifies diffChars toLowerCase current first = true ->
    Forall (fun old => qualifies diffChars toLowerCase current old = false) before' ->
    qualifies diffChars toLowerCase current first' = true ->
    first = first'.
Proof.
  intros current before.
  induction before as [|x before IH];
    intros first after before' first' after' Heq Hb Hq Hb' Hq';
    destruct before' as [|x' before']; simpl in Heq.
  - injection Heq as Hfirst _. exact Hfirst.
  - injection Heq as Hfirst _. subst x'.
    inversion Hb' as [|? ? Hx _]. congruence.
  - injection Heq as Hfirst _. subst x.
    inversion Hb as [|? ? Hx _]. congruence.
  - injection Heq as _ Hrest.
    inversion Hb as [|? ? _ Hb1]. inversion Hb' as [|? ? _ Hb1'].
    exact (IH first after before' first' after' Hrest Hb1 Hq Hb1' Hq').
Qed.

Lemma findPossibleRename_some : forall current lastContents r,
    findPossibleRename diffChars toLowerCase current lastContents = Some r ->
    exists candidate,
      In candidate lastContents /\ qualifies diffChars toLowerCase current candidate = true
      /\ r = renameOf diffChars toLowerCase current candidate.
Proof.
  intros current lastContents r.
  induction lastContents as [|old rest IH]; intros Hfind.
  - discriminate.
  - rewrite findPossibleRename_step in Hfind.
    destruct (qualifies diffChars toLowerCase current old) eqn:Hold.
    + inversion Hfind; subst. exists old. simpl. auto.
    + destruct (IH Hfind) as [c [Hin [Hq Hr]]]. exists c. simpl. auto.
Qed.

End Correlation.

(** ** The asynchronous methods never reject *)

Section Detection.
Variable diffChars : string -> string -> list Part.
Variable toLowerCase : string -> string.
Variable Drive : Type.
Variable Error : Type.
Variable revisionsList : string -> Drive -> (Error + RevisionsResponse) * Drive.

Lemma getRevisionDetails_returns : forall fileId w,
    exists r w', getRevisionDetails revisionsList fileId w = (Returned r, w').
Proof.
  intros fileId w.
  unfold getRevisionDetails, tryCatch, bind, awaitRevisionsList, ret, log.
  destruct (revisionsList fileId (drive w)) as [[e|response] d]; simpl; eauto.
Qed.


Lemma getModificationDetails_returns : forall current previous w,
    exists details w',
      getModificationDetails revisionsList current previous w
      = (Returned details, w').
Proof.
  intros current previous w. unfold getModificationDetails.
  destruct (isDocument current).
  - unfold tryCatch, bind.
    destruct (getRevisionDetails_returns (id current) w) as [r [w' Hr]].
    rewrite Hr. unfold ret. eauto.
  - unfold ret. eauto.
Qed.

(** ** Shape of the result of [detectChanges] *)

Lemma checkCurrent_spec : forall lastContents lastMap changes entry w,
    exists out w',
      checkCurrent diffChars toLowerCase revisionsList lastContents lastMap changes entry w
      = (Returned (changes ++ out), w')
      /\ entryOut diffChars toLowerCase revisionsList lastContents lastMap entry out.
Proof.
  intros lastContents lastMap changes entry w.
  unfold checkCurrent, entryOut.
  destruct (JS.get (fst entry) lastMap) as [last|].
  - unfold bind.
    destruct (String.eqb (modifiedTime (snd entry)) (modifiedTime last)) eqn:Hmt;
      cbn [negb]; cbv beta iota.
    + unfold ret at 1.
      destruct (JS.strictEqStr (parent0 (snd entry)) (parent0 last)); cbn [negb];
        cbv beta iota; unfold ret.
      * exists [], w. split; [rewrite app_nil_r; reflexivity|].
        exists []. split; reflexivity.
      * eexists _, w. split; [reflexivity|].
        exists []. split; reflexivity.
    + destruct (getModificationDetails_returns (snd entry) last w)
        as [details [w' Hd]].
      rewrite Hd. unfold ret at 1.
      assert (Hp : producedBy revisionsList (snd entry) last details)
        by (exists w, w'; exact Hd).
      destruct (JS.strictEqStr (parent0 (snd entry)) (parent0 last)); cbn [negb];
        cbv beta iota; unfold ret.
      * eexists _, w'. split; [reflexivity|].
        exists [Modified (snd entry) details]. split; [eauto|].
        rewrite app_nil_r. reflexivity.
      * eexists _, w'. split; [rewrite <- app_assoc; reflexivity|].
        exists [Modified (snd entry) details]. split; [eauto|]. reflexivity.
  - destruct (findPossibleRename diffChars toLowerCase (snd entry) lastContents);
      unfold ret; eexists _, w; split; reflexivity.
Qed.

Lemma forEachEntry_spec : forall lastContents lastMap entries changes w,
    exists outs w',
      forEachEntry (checkCurrent diffChars toLowerCase revisionsList lastContents lastMap)
                   entries changes w
      = (Returned (changes ++ List.concat outs), w')
      /\ Forall2 (entryOut diffChars toLowerCase revisionsList lastContents lastMap) entries outs.
Proof.
  intros lastContents lastMap entries.
  induction entries as [|entry rest IH]; intros changes w; simpl.
  - exists [], w. simpl. rewrite app_nil_r. split; [reflexivity|constructor].
  - unfold bind.
    destruct (checkCurrent_spec lastContents lastMap changes entry w)
      as [out [w1 [Hrun Hout]]].
    rewrite Hrun.
    destruct (IH (changes ++ out) w1) as [outs [w2 [Hrest Houts]]].
    exists (out :: outs), w2. split.
    + rewrite Hrest. simpl. rewrite app_assoc. reflexivity.
    + constructor; assumption.
Qed.

Lemma wasRenamed_app : forall item changes more,
    wasRenamed item (changes ++ more)
    = wasRenamed item changes || wasRenamed item more.
Proof.
  intros item changes more. unfold wasRenamed. apply existsb_app.
Qed.

Lemma wasRenamed_removed : forall item changes entries,
    wasRenamed item (changes ++ map (fun e : string * Item => Removed (snd e)) entries)
    = wasRenamed item changes.
Proof.
  intros item changes entries. rewrite wasRenamed_app.
  replace (wasRenamed item (map (fun e : string * Item => Removed (snd e)) entries))
    with false; [apply orb_false_r|].
  induction entries as [|e r IH]; [reflexivity | exact IH].
Qed.

Lemma removal_loop : forall currentMap lastMap changes,
    fold_left (checkRemoved currentMap) lastMap changes
    = changes ++ removedChanges currentMap lastMap changes.
Proof.
  intros currentMap lastMap. unfold removedChanges.
  induction lastMap as [|entry rest IH]; intros changes; simpl.
  - rewrite app_nil_r. reflexivity.
  - unfold checkRemoved at 2.
    destruct (negb (JS.has (fst entry) currentMap)
              && negb (wasRenamed (snd entry) changes)); simpl.
    + rewrite IH, <- app_assoc. simpl. do 3 f_equal.
      apply filter_ext. intros e.
      exact (f_equal (fun b => negb (JS.has (fst e) currentMap) && negb b)
                     (wasRenamed_removed (snd e) changes [entry])).
    + apply IH.
Qed.

(** [detectChanges] on a non-null previous snapshot always returns: first
    the pushes of the loop over [currentMap], entry by entry, then the
    [removed] changes. *)
Lemma detectChanges_shape : forall currentContents lastContents w,
    exists outs w',
      detectChanges diffChars toLowerCase revisionsList currentContents (Some lastContents) w
      = (Returned
           (List.concat outs
            ++ removedChanges (JS.newMap (idEntries currentContents))
                              (JS.newMap (idEntries lastContents))
                              (List.concat outs)),
         w')
      /\ Forall2 (entryOut diffChars toLowerCase revisionsList lastContents
                           (JS.newMap (idEntries lastContents)))
                 (JS.newMap (idEntries currentContents)) outs.
Proof.
  intros currentContents lastContents w. unfold detectChanges, bind.
  destruct (forEachEntry_spec lastContents (JS.newMap (idEntries lastContents))
              (JS.newMap (idEntries currentContents)) [] w)
    as [outs [w' [Hrun Houts]]].
  rewrite Hrun. simpl app. unfold ret. rewrite removal_loop.
  exists outs, w'. split; [reflexivity | exact Houts].
Qed.

End Detection.

(** ** First observation and identical snapshots *)

Section Baseline.
Variable diffChars : string -> string -> list Part.
Variable toLowerCase : string -> string.
Variable Drive : Type.
Variable Error : Type.
Variable revisionsList : string -> Drive -> (Error + RevisionsResponse) * Drive.

Lemma strictEqStr_refl : forall a, JS.strictEqStr a a = true.
Proof.
  intros [s|]; simpl; [apply String.eqb_refl | reflexivity].
Qed.

Lemma checkCurrent_same : forall lastContents lastMap changes entry w,
    JS.get (fst entry) lastMap = Some (snd entry) ->
    checkCurrent diffChars toLowerCase revisionsList lastContents lastMap changes entry w
    = (Returned changes, w).
Proof.
  intros lastContents lastMap changes entry w Hget.
  unfold checkCurrent. rewrite Hget. unfold bind.
  rewrite String.eqb_refl, strictEqStr_refl. reflexivity.
Qed.

Lemma forEachEntry_same : forall lastContents lastMap entries changes w,
    (forall entry, In entry entries ->
                   JS.get (fst entry) lastMap = Some (snd entry)) ->
    forEachEntry (checkCurrent diffChars toLowerCase revisionsList lastContents lastMap)
                 entries changes w
    = (Returned changes, w).
Proof.
  intros lastContents lastMap entries.
  induction entries as [|entry rest IH]; intros changes w Hall; simpl.
  - reflexivity.
  - unfold bind. rewrite checkCurrent_same by (apply Hall; left; reflexivity).
    apply IH. intros e He. apply Hall. right. exact He.
Qed.

Lemma filter_none : forall (A : Type) (f : A -> bool) (l : list A),
    (forall x, In x l -> f x = false) -> filter f l = [].
Proof.
  intros A f l. induction l as [|x r IH]; intros Hall; simpl.
  - reflexivity.
  - rewrite (Hall x) by (left; reflexivity).
    apply IH. intros y Hy. apply Hall. right. exact Hy.
Qed.

(** C6.  Against a null previous snapshot [detectChanges] returns the empty
    list, for every current snapshot (and touches neither the remote service
    nor the log). *)
Theorem detectChanges_null_previous : forall (snapshot : Snapshot) w,
    detectChanges diffChars toLowerCase revisionsList snapshot None w = (Returned [], w).
Proof.
  intros snapshot w. reflexivity.
Qed.

(** C7.  A snapshot compared with itself yields no change of any type: the
    result is the empty list.  Distinct ids are not even needed, since both
    id indexes are built the same way. *)
Theorem detectChanges_identical_snapshots : forall (snapshot : Snapshot) w,
    detectChanges diffChars toLowerCase revisionsList snapshot (Some snapshot) w
    = (Returned [], w).
Proof.
  intros snapshot w. unfold detectChanges, bind.
  rewrite forEachEntry_same by (intros entry He; apply idMap_get_self, He).
  unfold ret. rewrite removal_loop. unfold removedChanges.
  rewrite filter_none; [reflexivity|].
  intros [k v] Hin. simpl fst.
  assert (Hhas : JS.has k (JS.newMap (idEntries snapshot)) = true).
  { apply has_true_iff. apply (in_map fst) in Hin. exact Hin. }
  rewrite Hhas. reflexivity.
Qed.

(** C2, as amended.  Against an empty (non-null) previous snapshot the single
    current item is reported as [added]: the result is exactly one [Added]
    change for it. *)
Theorem detectChanges_empty_previous : forall (A : Item) w,
    detectChanges diffChars toLowerCase revisionsList [A] (Some []) w
    = (Returned [Added A], w).
Proof.
  intros A w. reflexivity.
Qed.

End Baseline.

(** C2, counterexample.  With previous = [[]] and current = [[report]] the
    result is not the empty list. *)
Lemma detectChanges_empty_previous_not_empty :
  Reference.run [Sample.report] (Some []) <> Returned [].
Proof.
  vm_compute. discriminate.
Qed.

(** ** What the two loops push *)

Section Pushes.
Variable diffChars : string -> string -> list Part.
Variable toLowerCase : string -> string.
Variable Drive : Type.
Variable Error : Type.
Variable revisionsList : string -> Drive -> (Error + RevisionsResponse) * Drive.

Lemma strictEqNum_refl : forall a, JS.strictEqNum a a = true.
Proof.
  intros [n|]; simpl; [apply Z.eqb_refl | reflexivity].
Qed.

Lemma in_concat_Forall2 :
  forall (A B : Type) (R : A -> list B -> Prop) (xs : list A) (outs : list (list B)) c,
    Forall2 R xs outs -> In c (List.concat outs) ->
    exists x out, In x xs /\ R x out /\ In c out.
Proof.
  intros A B R xs outs c Hall. induction Hall as [|x out xs outs Hx _ IH]; simpl.
  - contradiction.
  - intros Hin. apply in_app_or in Hin. destruct Hin as [Hin|Hin].
    + exists x, out. auto.
    + destruct (IH Hin) as [x' [out' [Hx' [HR Hc]]]].
      exists x', out'. auto.
Qed.

(** A change pushed for an entry of [currentMap] is about the entry's item
    and is never a [removed] change. *)
Lemma entryOut_item : forall lastContents lastMap entry out c,
    entryOut diffChars toLowerCase revisionsList lastContents lastMap entry out ->
    In c out ->
    changeItem c = snd entry /\ (forall item, c <> Removed item).
Proof.
  intros lastContents lastMap entry out c Hout Hin. unfold entryOut in Hout.
  destruct (JS.get (fst entry) lastMap) as [last|].
  - destruct Hout as [modified [Hmod Hout]]. subst out.
    apply in_app_or in Hin. destruct Hin as [Hin|Hin].
    + destruct (String.eqb (modifiedTime (snd entry)) (modifiedTime last)).
      * subst modified. contradiction.
      * destruct Hmod as [details [_ Hmod]]. subst modified.
        destruct Hin as [Hc|[]]. subst c. split; [reflexivity | discriminate].
    + destruct (JS.strictEqStr (parent0 (snd entry)) (parent0 last)).
      * contradiction.
      * destruct Hin as [Hc|[]]. subst c. split; [reflexivity | discriminate].
  - subst out. destruct Hin as [Hc|[]]. subst c.
    destruct (findPossibleRename diffChars toLowerCase (snd entry) lastContents);
      split; try reflexivity; discriminate.
Qed.

(** A [renamed] change is pushed only for an entry whose id the previous
    index lacks, with the payload of [findPossibleRename]. *)
Lemma entryOut_renamed : forall lastContents lastMap entry out item oldName score,
    entryOut diffChars toLowerCase revisionsList lastContents lastMap entry out ->
    In (Renamed item oldName score) out ->
    item = snd entry
    /\ JS.get (fst entry) lastMap = None
    /\ findPossibleRename diffChars toLowerCase (snd entry) lastContents
       = Some {| oldFileName := oldName; similarity := score |}.
Proof.
  intros lastContents lastMap entry out item oldName score Hout Hin.
  unfold entryOut in Hout.
  destruct (JS.get (fst entry) lastMap) as [last|].
  - exfalso. destruct Hout as [modified [Hmod Hout]]. subst out.
    apply in_app_or in Hin. destruct Hin as [Hin|Hin].
    + destruct (String.eqb (modifiedTime (snd entry)) (modifiedTime last)).
      * subst modified. contradiction.
      * destruct Hmod as [details [_ Hmod]]. subst modified.
        destruct Hin as [Hc|[]]. discriminate.
    + destruct (JS.strictEqStr (parent0 (snd entry)) (parent0 last)).
      * contradiction.
      * destruct Hin as [Hc|[]]. discriminate.
  - subst out. destruct Hin as [Hc|[]].
    destruct (findPossibleRename diffChars toLowerCase (snd entry) lastContents) as [r|].
    + inversion Hc; subst. destruct r; auto.
    + discriminate.
Qed.

Lemma in_removedChanges : forall currentMap lastMap changes c,
    In c (removedChanges currentMap lastMap changes) <->
    exists entry, In entry lastMap
                  /\ c = Removed (snd entry)
                  /\ JS.has (fst entry) currentMap = false
                  /\ wasRenamed (snd entry) changes = false.
Proof.
  intros currentMap lastMap changes c. unfold removedChanges.
  rewrite in_map_iff. split.
  - intros [entry [Hc Hin]]. apply filter_In in Hin. destruct Hin as [Hin Hf].
    apply andb_true_iff in Hf. destruct Hf as [Hh Hw].
    apply negb_true_iff in Hh, Hw. exists entry. auto.
  - intros [entry [Hin [Hc [Hh Hw]]]]. exists entry. split; [auto|].
    apply filter_In. split; [exact Hin|]. rewrite Hh, Hw. reflexivity.
Qed.

Lemma wasRenamed_true_iff : forall item changes,
    wasRenamed item changes = true <->
    exists subject score, In (Renamed subject (name item) score) changes.
Proof.
  intros item changes. unfold wasRenamed. rewrite existsb_exists. split.
  - intros [c [Hin Hc]]. destruct c; simpl in Hc; try discriminate.
    apply String.eqb_eq in Hc. subst. eauto.
  - intros [subject [score Hin]]. eexists. split; [exact Hin|].
    simpl. apply String.eqb_refl.
Qed.

Lemma filter_concerns_none : forall i changes,
    (forall c, In c changes -> id (changeItem c) <> i) ->
    filter (concerns i) changes = [].
Proof.
  intros i changes Hall. apply filter_none. intros c Hc. unfold concerns.
  apply String.eqb_neq. apply Hall, Hc.
Qed.

End Pushes.

(** ** Rename detection *)

Section Renames.
Variable diffChars : string -> string -> list Part.
Variable toLowerCase : string -> string.
Variable Drive : Type.
Variable Error : Type.
Variable revisionsList : string -> Drive -> (Error + RevisionsResponse) * Drive.

(** C8.  When two items of the previous snapshot, at positions [i < j], both
    qualify as rename sources for a current item, [findPossibleRename] returns
    the name and score of the first qualifying item in the order of the
    previous snapshot: it sits at a position [k <= i], hence before [j], and
    nothing before it qualifies.  Scores are not compared. *)
Theorem findPossibleRename_first_match_wins :
  forall current previous i j earlier later,
    i < j ->
    nth_error previous i = Some earlier ->
    nth_error previous j = Some later ->
    qualifies diffChars toLowerCase current earlier = true ->
    qualifies diffChars toLowerCase current later = true ->
    exists k first,
      k <= i /\ k < j
      /\ nth_error previous k = Some first
      /\ qualifies diffChars toLowerCase current first = true
      /\ (forall k' old, k' < k -> nth_error previous k' = Some old ->
                         qualifies diffChars toLowerCase current old = false)
      /\ findPossibleRename diffChars toLowerCase current previous
         = Some {| oldFileName := name first;
                   similarity := calculateNameSimilarity diffChars toLowerCase
                                   (name current) (name first) |}.
Proof.
  intros current previous i j earlier later Hij Hi Hj Hqi Hqj.
  destruct (first_qualifying diffChars toLowerCase current previous earlier
              (nth_error_In _ _ Hi) Hqi)
    as [before [first [after [Hsplit [Hbefore Hfirst]]]]].
  assert (Hk : List.length before <= i).
  { destruct (le_lt_dec (List.length before) i) as [Hle|Hlt]; [exact Hle|].
    exfalso. subst previous. rewrite nth_error_app1 in Hi by exact Hlt.
    apply nth_error_In in Hi. rewrite Forall_forall in Hbefore.
    rewrite (Hbefore _ Hi) in Hqi. discriminate. }
  exists (List.length before), first. repeat split.
  - exact Hk.
  - lia.
  - subst previous. rewrite nth_error_app2 by lia.
    rewrite Nat.sub_diag. reflexivity.
  - exact Hfirst.
  - intros k' old Hk' Hold. subst previous.
    rewrite nth_error_app1 in Hold by exact Hk'.
    apply nth_error_In in Hold. rewrite Forall_forall in Hbefore.
    apply Hbefore, Hold.
  - subst previous. apply findPossibleRename_first; assumption.
Qed.

(** C1.  In snapshots with distinct ids: when a current item's id is absent
    from previous and some previous item [P] has the same mimeType and size and
    a name similarity above 0.8, the changes about that current item are
    exactly one [renamed] change, carrying the name and score of the matched
    previous item; there is no [added] change for the current item and no
    [removed] change for the matched item.  The matched item is the first
    qualifying one in previous order: it is [P] itself whenever nothing
    before [P] qualifies. *)
Theorem rename_reported_once :
  forall (current previous : Snapshot) (C P : Item) w,
    NoDup (ids current) ->
    In C current ->
    ~ In (id C) (ids previous) ->
    In P previous ->
    mimeType C = mimeType P ->
    size C = size P ->
    JS.gt (calculateNameSimilarity diffChars toLowerCase (name C) (name P)) threshold = true ->
    exists changes w' before matched after,
      detectChanges diffChars toLowerCase revisionsList current (Some previous) w
      = (Returned changes, w')
      /\ previous = before ++ matched :: after
      /\ Forall (fun old => qualifies diffChars toLowerCase C old = false) before
      /\ qualifies diffChars toLowerCase C matched = true
      /\ filter (concerns (id C)) changes
         = [Renamed C (name matched)
                    (calculateNameSimilarity diffChars toLowerCase (name C) (name matched))]
      /\ ~ In (Added C) changes
      /\ ~ In (Removed matched) changes
      /\ (forall before' after',
             previous = before' ++ P :: after' ->
             Forall (fun old => qualifies diffChars toLowerCase C old = false) before' ->
             matched = P).
Proof.
  intros current previous C P w Hnd HC Habsent HP Hmime Hsize Hsim.
  assert (HqP : qualifies diffChars toLowerCase C P = true).
  { unfold qualifies. rewrite Hmime, Hsize, strictEqStr_refl, strictEqNum_refl.
    exact Hsim. }
  destruct (first_qualifying diffChars toLowerCase C previous P HP HqP)
    as [before [matched [after [Hsplit [Hbefore Hmatched]]]]].
  destruct (detectChanges_shape diffChars toLowerCase Drive Error revisionsList current previous w)
    as [outs [w' [Hrun Houts]]].
  set (renamed := Renamed C (name matched)
                    (calculateNameSimilarity diffChars toLowerCase (name C) (name matched))).
  (* the pushes of the first loop, split at the entry of [C] *)
  rewrite (idMap_nodup current Hnd) in Houts.
  destruct (in_split C current HC) as [c1 [c2 Hcur]].
  assert (Hentries : idEntries current
                     = idEntries c1 ++ (id C, C) :: idEntries c2).
  { rewrite Hcur. unfold idEntries. rewrite map_app. reflexivity. }
  rewrite Hentries in Houts.
  apply Forall2_app_inv_l in Houts.
  destruct Houts as [o1 [orest [Ho1 [Horest Houts]]]].
  destruct orest as [|oC o2]; [inversion Horest|].
  apply Forall2_cons_iff in Horest. destruct Horest as [HoC Ho2].
  subst previous outs.
  assert (HoCeq : oC = [renamed]).
  { unfold entryOut in HoC. simpl fst in HoC. simpl snd in HoC.
    rewrite (proj2 (idMap_get_none (before ++ matched :: after) (id C)) Habsent)
      in HoC.
    rewrite (findPossibleRename_first diffChars toLowerCase C before matched after
               Hbefore Hmatched) in HoC.
    exact HoC. }
  subst oC.
  assert (Hother : forall l outs',
             Forall2 (entryOut diffChars toLowerCase revisionsList (before ++ matched :: after)
                        (JS.newMap (idEntries (before ++ matched :: after))))
                     (idEntries l) outs' ->
             ~ In (id C) (ids l) ->
             filter (concerns (id C)) (List.concat outs') = []).
  { intros l outs' Hall Hnot. apply filter_concerns_none. intros c Hc.
    destruct (in_concat_Forall2 _ _ _ _ _ _ Hall Hc) as [e [out [He [Hout Hin]]]].
    destruct (entryOut_item _ _ _ _ _ _ _ _ _ _ Hout Hin) as [Hitem _].
    rewrite Hitem. apply idEntries_in in He. destruct He as [_ He].
    intros Heq. apply Hnot. rewrite <- Heq. apply in_map, He. }
  assert (Hnd' : NoDup (ids c1 ++ id C :: ids c2)).
  { rewrite Hcur in Hnd. unfold ids in *. rewrite map_app in Hnd. exact Hnd. }
  assert (Hc1 : ~ In (id C) (ids c1)).
  { intros Hin. apply NoDup_remove_2 in Hnd'. apply Hnd'.
    apply in_or_app. left. exact Hin. }
  assert (Hc2 : ~ In (id C) (ids c2)).
  { intros Hin. apply NoDup_remove_2 in Hnd'. apply Hnd'.
    apply in_or_app. right. exact Hin. }
  assert (Hremoved : filter (concerns (id C))
                       (removedChanges (JS.newMap (idEntries current))
                          (JS.newMap (idEntries (before ++ matched :: after)))
                          (List.concat (o1 ++ [renamed] :: o2))) = []).
  { apply filter_concerns_none. intros c Hc. apply in_removedChanges in Hc.
    destruct Hc as [e [He [Hc _]]]. subst c. simpl.
    apply idMap_in in He. destruct He as [Hfst He].
    intros Heq. apply Habsent. rewrite <- Heq. apply in_map, He. }
  assert (Hfilter : filter (concerns (id C))
                      (List.concat (o1 ++ [renamed] :: o2)
                       ++ removedChanges (JS.newMap (idEntries current))
                            (JS.newMap (idEntries (before ++ matched :: after)))
                            (List.concat (o1 ++ [renamed] :: o2)))
                    = [renamed]).
  { rewrite filter_app, Hremoved, app_nil_r.
    rewrite concat_app, filter_app, (Hother c1 o1 Ho1 Hc1).
    change (List.concat ([renamed] :: o2)) with (renamed :: List.concat o2).
    cbn [filter app]. rewrite (Hother c2 o2 Ho2 Hc2).
    unfold concerns, renamed. cbn [changeItem]. rewrite String.eqb_refl.
    reflexivity. }
  eexists _, w', before, matched, after.
  split; [exact Hrun|].
  split; [reflexivity|]. split; [exact Hbefore|]. split; [exact Hmatched|].
  split; [exact Hfilter|]. split; [|split].
  - intros Hadded.
    assert (Hin : In (Added C) [renamed]).
    { rewrite <- Hfilter. apply filter_In. split; [exact Hadded|].
      unfold concerns. simpl. apply String.eqb_refl. }
    destruct Hin as [Heq|[]]. discriminate.
  - intros Hrem. apply in_app_or in Hrem. destruct Hrem as [Hrem|Hrem].
    + assert (Hall : Forall2 (entryOut diffChars toLowerCase revisionsList
                                (before ++ matched :: after)
                                (JS.newMap (idEntries (before ++ matched :: after))))
                             (idEntries c1 ++ (id C, C) :: idEntries c2)
                             (o1 ++ [renamed] :: o2)).
      { apply Forall2_app; [exact Ho1 | constructor; assumption]. }
      destruct (in_concat_Forall2 _ _ _ _ _ _ Hall Hrem)
        as [e [out [He [Hout Hin]]]].
      destruct (entryOut_item _ _ _ _ _ _ _ _ _ _ Hout Hin) as [_ Hno].
      exact (Hno matched eq_refl).
    + apply in_removedChanges in Hrem.
      destruct Hrem as [e [He [Hc [_ Hw]]]].
      inversion Hc as [Hm]. rewrite <- Hm in Hw.
      assert (Htrue : wasRenamed matched (List.concat (o1 ++ [renamed] :: o2)) = true).
      { apply wasRenamed_true_iff. exists C, (calculateNameSimilarity diffChars toLowerCase (name C) (name matched)).
        rewrite concat_app. apply in_or_app. right. simpl. left. reflexivity. }
      rewrite Htrue in Hw. discriminate.
  - intros before' after' Heq Hbefore'.
    exact (first_qualifying_unique diffChars toLowerCase C before matched after
             before' P after' Heq Hbefore Hmatched Hbefore' HqP).
Qed.

End Renames.

(** ** Items matched by id, and removals *)

Section Matched.
Variable diffChars : string -> string -> list Part.
Variable toLowerCase : string -> string.
Variable Drive : Type.
Variable Error : Type.
Variable revisionsList : string -> Drive -> (Error + RevisionsResponse) * Drive.

(** C9.  In snapshots with distinct ids, an item whose id is in both
    snapshots with the same modifiedTime and the same parent (whatever happened
    to its name) gets no change at all: no change of the result is about its
    id, be it [added], [removed], [renamed], [modified] or [moved]. *)
Theorem name_change_alone_is_silent :
  forall (current previous : Snapshot) (X X' : Item) w,
    NoDup (ids current) ->
    NoDup (ids previous) ->
    In X current ->
    In X' previous ->
    id X = id X' ->
    modifiedTime X = modifiedTime X' ->
    parent0 X = parent0 X' ->
    exists changes w',
      detectChanges diffChars toLowerCase revisionsList current (Some previous) w
      = (Returned changes, w')
      /\ filter (concerns (id X)) changes = [].
Proof.
  intros current previous X X' w Hndc Hndp HX HX' Hid Hmt Hparent.
  destruct (detectChanges_shape diffChars toLowerCase Drive Error revisionsList current previous w)
    as [outs [w' [Hrun Houts]]].
  eexists _, w'. split; [exact Hrun|].
  apply filter_concerns_none. intros c Hc Heq.
  apply in_app_or in Hc. destruct Hc as [Hc|Hc].
  - destruct (in_concat_Forall2 _ _ _ _ _ _ Houts Hc) as [e [out [He [Hout Hin]]]].
    destruct (entryOut_item _ _ _ _ _ _ _ _ _ _ Hout Hin) as [Hitem _].
    rewrite Hitem in Heq.
    apply idMap_in in He. destruct He as [Hfst He].
    assert (HeX : snd e = X) by (apply (nodup_ids_eq current); assumption).
    unfold entryOut in Hout. rewrite Hfst, HeX, Hid in Hout.
    rewrite (idMap_get_item previous X' Hndp HX') in Hout.
    rewrite Hmt, String.eqb_refl, Hparent, strictEqStr_refl in Hout.
    destruct Hout as [modified [Hmod Hout]]. subst modified out. exact Hin.
  - apply in_removedChanges in Hc. destruct Hc as [e [He [Hc [Hhas _]]]].
    subst c. simpl in Heq.
    apply idMap_in in He. destruct He as [Hfst He].
    assert (Htrue : JS.has (fst e) (JS.newMap (idEntries current)) = true).
    { apply idMap_has. rewrite Hfst, Heq. apply in_map, HX. }
    rewrite Htrue in Hhas. discriminate.
Qed.

(** C10.  In a previous snapshot with distinct ids, an item whose id is
    absent from current is reported [removed] exactly when no [renamed] change
    of the result carries its name as old name; the test looks at the name
    only.  Hence two distinct previous items absent from current that share a
    name are both left out as soon as one [renamed] change carries that name. *)
Theorem removed_iff_name_not_renamed :
  forall (current previous : Snapshot) w,
    NoDup (ids previous) ->
    exists changes w',
      detectChanges diffChars toLowerCase revisionsList current (Some previous) w
      = (Returned changes, w')
      /\ (forall P,
             In P previous -> ~ In (id P) (ids current) ->
             (In (Removed P) changes
              <-> forall subject score, ~ In (Renamed subject (name P) score) changes))
      /\ (forall P1 P2 subject score,
             In P1 previous -> In P2 previous -> P1 <> P2 ->
             ~ In (id P1) (ids current) -> ~ In (id P2) (ids current) ->
             name P1 = name P2 ->
             In (Renamed subject (name P1) score) changes ->
             ~ In (Removed P1) changes /\ ~ In (Removed P2) changes).
Proof.
  intros current previous w Hndp.
  destruct (detectChanges_shape diffChars toLowerCase Drive Error revisionsList current previous w)
    as [outs [w' [Hrun Houts]]].
  set (pushed := List.concat outs) in *.
  set (removed := removedChanges (JS.newMap (idEntries current))
                    (JS.newMap (idEntries previous)) pushed) in *.
  (* [renamed] changes are all in the first part, [removed] ones in the second *)
  assert (Hren : forall subject oldName score,
             In (Renamed subject oldName score) (pushed ++ removed) ->
             In (Renamed subject oldName score) pushed).
  { intros subject oldName score Hin. apply in_app_or in Hin.
    destruct Hin as [Hin|Hin]; [exact Hin|].
    apply in_removedChanges in Hin. destruct Hin as [e [_ [Hc _]]]. discriminate. }
  assert (Hrem : forall P,
             In (Removed P) (pushed ++ removed) ->
             wasRenamed P pushed = false).
  { intros P Hin. apply in_app_or in Hin. destruct Hin as [Hin|Hin].
    - exfalso.
      destruct (in_concat_Forall2 _ _ _ _ _ _ Houts Hin) as [e [out [He [Hout Hc]]]].
      destruct (entryOut_item _ _ _ _ _ _ _ _ _ _ Hout Hc) as [_ Hno].
      exact (Hno P eq_refl).
    - apply in_removedChanges in Hin. destruct Hin as [e [_ [Hc [_ Hw]]]].
      injection Hc as HP. rewrite HP. exact Hw. }
  assert (Hforward : forall P subject score,
             In (Renamed subject (name P) score) (pushed ++ removed) ->
             ~ In (Removed P) (pushed ++ removed)).
  { intros P subject score Hin Hremoved.
    apply Hrem in Hremoved. apply Hren in Hin.
    assert (Htrue : wasRenamed P pushed = true)
      by (apply wasRenamed_true_iff; eauto).
    rewrite Htrue in Hremoved. discriminate. }
  eexists _, w'. split; [exact Hrun|]. split.
  - intros P HP Habsent. split.
    + intros Hremoved subject score Hin. exact (Hforward P subject score Hin Hremoved).
    + intros Hnone. apply in_or_app. right. apply in_removedChanges.
      exists (id P, P). simpl. split; [|split; [reflexivity|split]].
      * rewrite (idMap_nodup previous Hndp). unfold idEntries.
        apply in_map_iff. exists P. auto.
      * destruct (JS.has (id P) (JS.newMap (idEntries current))) eqn:Hhas;
          [|reflexivity].
        apply idMap_has in Hhas. contradiction.
      * destruct (wasRenamed P pushed) eqn:Hw; [|reflexivity].
        apply wasRenamed_true_iff in Hw. destruct Hw as [subject [score Hin]].
        exfalso. apply (Hnone subject score). apply in_or_app. left. exact Hin.
  - intros P1 P2 subject score _ _ _ _ _ Hname Hin. split.
    + exact (Hforward P1 subject score Hin).
    + rewrite Hname in Hin. exact (Hforward P2 subject score Hin).
Qed.

End Matched.

(** ** Modification details when the revision listing fails *)

Section Classifier.
Variable diffChars : string -> string -> list Part.
Variable toLowerCase : string -> string.
Variable Drive : Type.
Variable Error : Type.
Variable revisionsList : string -> Drive -> (Error + RevisionsResponse) * Drive.



Lemma getModificationDetails_result : forall current previous w details w',
    getModificationDetails revisionsList current previous w = (Returned details, w') ->
    (isDocument current = false /\ details = baseDetails current previous /\ w' = w)
    \/ (isDocument current = true
        /\ exists r, details = setRevisionInfo (baseDetails current previous) r).
Proof.
  intros current previous w details w' Hrun.
  unfold getModificationDetails in Hrun.
  destruct (isDocument current).
  - right. split; [reflexivity|]. unfold tryCatch, bind in Hrun.
    destruct (getRevisionDetails_returns Drive Error revisionsList (id current) w)
      as [r [w1 Hr]].
    rewrite Hr in Hrun. unfold ret in Hrun. injection Hrun as Hd _.
    exists r. symmetry. exact Hd.
  - left. unfold ret in Hrun. injection Hrun as Hd Hw. auto.
Qed.


End Classifier.


(** ** Name similarity *)

Lemma unchangedLength_cons : forall part parts,
    unchangedLength (part :: parts)
    = (if added part || removed part then 0 else String.length (value part))
      + unchangedLength parts.
Proof.
  intros part parts. unfold unchangedLength. simpl.
  generalize (if added part || removed part then 0 else String.length (value part)).
  induction parts as [|p ps IH]; intros n; simpl.
  - lia.
  - rewrite IH. rewrite (IH (if added p || removed p then 0
                             else String.length (value p))). lia.
Qed.

Lemma isEmpty_length : forall s, s <> "" -> 0 < String.length s.
Proof.
  intros [|c r] Hs; simpl; [contradiction | lia].
Qed.

Lemma div_by_positive : forall a b,
    0 < b ->
    exists q, JS.div a b = JS.Finite q /\ (0 <= q)%Q /\ (a <= b -> (q <= 1)%Q).
Proof.
  intros a [|n] Hpos; [lia|].
  exists (Z.of_nat a # Pos.of_nat (S n))%Q. split; [reflexivity|].
  assert (Hden : Z.pos (Pos.of_nat (S n)) = Z.of_nat (S n)).
  { rewrite <- Pos.of_nat_succ, Zpos_P_of_succ_nat. lia. }
  unfold Qle. cbn [Qnum Qden]. rewrite Hden. split; [lia | intros Hle; lia].
Qed.

(** C4, as amended.  Provided the character diff reports as unchanged no more
    characters than either of its arguments has, and the lower case of the
    empty string is empty: for two names that are both empty once the
    extension is removed, the computation divides 0 by 0 and the result is
    NaN (not 0), which is not above the 0.8 threshold; for every other pair
    of names the divisor is positive and the result is a number that is not
    negative, and that is at most 1 whenever lower-casing does not lengthen
    at least one of the two extension-free names. *)
Theorem similarity_of_empty_names_is_NaN :
  forall (diffChars : string -> string -> list Part)
         (toLowerCase : string -> string),
    (forall a b, unchangedLength (diffChars a b)
                 <= Nat.min (String.length a) (String.length b)) ->
    toLowerCase "" = "" ->
    forall name1 name2,
      (JS.replaceExtension name1 = "" -> JS.replaceExtension name2 = "" ->
       Nat.max (String.length (JS.replaceExtension name1))
               (String.length (JS.replaceExtension name2)) = 0
       /\ calculateNameSimilarity diffChars toLowerCase name1 name2 = JS.NaN
       /\ JS.gt (calculateNameSimilarity diffChars toLowerCase name1 name2) threshold
          = false)
      /\ (JS.replaceExtension name1 <> "" \/ JS.replaceExtension name2 <> "" ->
          exists q,
            calculateNameSimilarity diffChars toLowerCase name1 name2 = JS.Finite q
            /\ (0 <= q)%Q
            /\ (String.length (toLowerCase (JS.replaceExtension name1))
                <= String.length (JS.replaceExtension name1)
                \/ String.length (toLowerCase (JS.replaceExtension name2))
                   <= String.length (JS.replaceExtension name2) ->
                (q <= 1)%Q)).
Proof.
  intros diffChars toLowerCase Hdiff Hempty name1 name2.
  unfold calculateNameSimilarity.
  pose proof (Hdiff (toLowerCase (JS.replaceExtension name1))
                    (toLowerCase (JS.replaceExtension name2))) as Hle.
  split.
  - intros H1 H2. rewrite H1, H2 in *. rewrite Hempty in *. simpl in Hle.
    assert (H0 : unchangedLength (diffChars "" "") = 0) by lia.
    rewrite H0. simpl. auto.
  - intros Hne.
    destruct (div_by_positive
                (unchangedLength (diffChars (toLowerCase (JS.replaceExtension name1))
                                            (toLowerCase (JS.replaceExtension name2))))
                (Nat.max (String.length (JS.replaceExtension name1))
                         (String.length (JS.replaceExtension name2))))
      as [q [Hq [Hpos Hone]]].
    + destruct Hne as [Hne|Hne]; apply isEmpty_length in Hne; lia.
    + exists q. split; [exact Hq|]. split; [exact Hpos|].
      intros Hshort. apply Hone. lia.
Qed.

(** ** The reference instance *)

Lemma unchangedLength_ins : forall cs, unchangedLength (map Reference.ins cs) = 0.
Proof.
  induction cs as [|c r IH]; [reflexivity|].
  simpl map. rewrite unchangedLength_cons, IH. reflexivity.
Qed.

Lemma unchangedLength_del : forall cs, unchangedLength (map Reference.del cs) = 0.
Proof.
  induction cs as [|c r IH]; [reflexivity|].
  simpl map. rewrite unchangedLength_cons, IH. reflexivity.
Qed.

Lemma script_cons : forall x a' y b',
    Reference.script (x :: a') (y :: b')
    = if Ascii.eqb x y then Reference.keep x :: Reference.script a' b'
      else if unchangedLength (Reference.ins y :: Reference.script (x :: a') b')
              <=? unchangedLength (Reference.del x :: Reference.script a' (y :: b'))
           then Reference.del x :: Reference.script a' (y :: b')
           else Reference.ins y :: Reference.script (x :: a') b'.
Proof.
  intros x a' y b'. reflexivity.
Qed.

Lemma script_bound : forall a b,
    unchangedLength (Reference.script a b)
    <= Nat.min (List.length a) (List.length b).
Proof.
  induction a as [|x a' IHa]; intros b.
  - simpl Reference.script. rewrite unchangedLength_ins. lia.
  - induction b as [|y b' IHb].
    + change (Reference.script (x :: a') []) with (map Reference.del (x :: a')).
      rewrite unchangedLength_del. lia.
    + rewrite script_cons. destruct (Ascii.eqb x y).
      * rewrite unchangedLength_cons. specialize (IHa b').
        cbn [Reference.keep added removed value orb String.length List.length].
        lia.
      * destruct (_ <=? _).
        -- rewrite unchangedLength_cons. specialize (IHa (y :: b')).
           cbn [Reference.del added removed value orb List.length] in *. lia.
        -- rewrite unchangedLength_cons.
           cbn [Reference.ins added removed value orb List.length] in *. lia.
Qed.

Lemma list_ascii_length : forall s,
    List.length (list_ascii_of_string s) = String.length s.
Proof.
  induction s as [|c r IH]; simpl; [reflexivity | rewrite IH; reflexivity].
Qed.

Lemma reference_diffChars_bound : forall a b,
    unchangedLength (Reference.diffChars a b)
    <= Nat.min (String.length a) (String.length b).
Proof.
  intros a b. unfold Reference.diffChars.
  rewrite <- (list_ascii_length a), <- (list_ascii_length b). apply script_bound.
Qed.

(** C4, counterexample.  [.env] and [.gitignore] are both empty once the
    extension is removed; their similarity is NaN: neither 0 nor any number of
    the interval [0,1], and the divisor is 0.  And a name of two U+0130
    characters, which is not empty once the extension is removed, scores 2
    against itself: its lower case has four code units, all unchanged, and
    the divisor is the length 2 of the name as it is. *)
Lemma similarity_outside_unit_interval :
  (JS.replaceExtension ".env" = ""
   /\ JS.replaceExtension ".gitignore" = ""
   /\ Reference.similarityOf ".env" ".gitignore" = JS.NaN
   /\ ~ (exists q, Reference.similarityOf ".env" ".gitignore" = JS.Finite q))
  /\ (JS.replaceExtension Dotted.twoCapitals <> ""
      /\ calculateNameSimilarity Reference.diffChars Dotted.toLowerCase
                                 Dotted.twoCapitals Dotted.twoCapitals
         = JS.Finite (4 # 2)
      /\ ~ (4 # 2 <= 1)%Q).
Proof.
  split.
  - repeat split. intros [q Hq]. vm_compute in Hq. discriminate.
  - split; [discriminate|]. split; [vm_compute; reflexivity|].
    unfold Qle. simpl. lia.
Qed.

(** ** Worked inputs *)

(** C3, the failing input.  [report.txt] (id 1) is in both snapshots and
    [report1.txt] (id 2) is new: the new item is reported as renamed from
    [report.txt], an item that is still present in current. *)
Lemma rename_source_still_present :
  In (id Sample.report) (ids [Sample.report; Sample.report1])
  /\ Reference.run [Sample.report; Sample.report1] (Some [Sample.report])
     = Returned [Renamed Sample.report1 "report.txt" (JS.Finite (6 # 7))].
Proof.
  split; [left; reflexivity | vm_compute; reflexivity].
Qed.

(** The first qualifying candidate is taken although the second one has the
    higher score. *)
Example first_match_not_best_match :
  findPossibleRename Reference.diffChars JS.toLowerCase Sample.reportNew
                     [Sample.report1; Sample.report]
  = Some {| oldFileName := "report1.txt"; similarity := JS.Finite (6 # 7) |}
  /\ Reference.similarityOf "report.txt" "report.txt" = JS.Finite (6 # 6).
Proof.
  split; vm_compute; reflexivity.
Qed.

(** C8 on a worked input: [report1.txt] comes first and is taken with score
    6/7, although [report.txt] behind it scores 1. *)
Lemma findPossibleRename_first_match_wins_witness :
  qualifies Reference.diffChars JS.toLowerCase Sample.reportNew Sample.report1 = true
  /\ qualifies Reference.diffChars JS.toLowerCase Sample.reportNew Sample.report = true
  /\ exists k first,
      k <= 0 /\ k < 1
      /\ nth_error [Sample.report1; Sample.report] k = Some first
      /\ qualifies Reference.diffChars JS.toLowerCase Sample.reportNew first = true
      /\ (forall k' old, k' < k ->
                         nth_error [Sample.report1; Sample.report] k' = Some old ->
                         qualifies Reference.diffChars JS.toLowerCase Sample.reportNew old = false)
      /\ findPossibleRename Reference.diffChars JS.toLowerCase Sample.reportNew
                            [Sample.report1; Sample.report]
         = Some {| oldFileName := name first;
                   similarity := calculateNameSimilarity Reference.diffChars JS.toLowerCase
                                   (name Sample.reportNew) (name first) |}.
Proof.
  split; [vm_compute; reflexivity|]. split; [vm_compute; reflexivity|].
  apply (findPossibleRename_first_match_wins Reference.diffChars JS.toLowerCase Sample.reportNew
           [Sample.report1; Sample.report] 0 1 Sample.report1 Sample.report).
  - lia.
  - reflexivity.
  - reflexivity.
  - vm_compute; reflexivity.
  - vm_compute; reflexivity.
Defined.

(** C1 on a worked input: two previous items qualify for the new
    [report.txt]; the first one is the matched item. *)
Lemma rename_reported_once_witness :
  NoDup (ids [Sample.reportNew])
  /\ ~ In (id Sample.reportNew) (ids [Sample.report1; Sample.report2])
  /\ exists changes w' before matched after,
      detectChanges Reference.diffChars JS.toLowerCase Reference.unavailable
                    [Sample.reportNew] (Some [Sample.report1; Sample.report2])
                    Reference.world0
      = (Returned changes, w')
      /\ [Sample.report1; Sample.report2] = before ++ matched :: after
      /\ Forall (fun old => qualifies Reference.diffChars JS.toLowerCase Sample.reportNew old = false)
                before
      /\ qualifies Reference.diffChars JS.toLowerCase Sample.reportNew matched = true
      /\ filter (concerns (id Sample.reportNew)) changes
         = [Renamed Sample.reportNew (name matched)
                    (calculateNameSimilarity Reference.diffChars JS.toLowerCase
                       (name Sample.reportNew) (name matched))]
      /\ ~ In (Added Sample.reportNew) changes
      /\ ~ In (Removed matched) changes
      /\ (forall before' after',
             [Sample.report1; Sample.report2] = before' ++ Sample.report2 :: after' ->
             Forall (fun old => qualifies Reference.diffChars JS.toLowerCase Sample.reportNew old = false)
                    before' ->
             matched = Sample.report2).
Proof.
  split; [distinct_ids|]. split; [absent_id|].
  apply (rename_reported_once Reference.diffChars JS.toLowerCase unit string Reference.unavailable
           [Sample.reportNew] [Sample.report1; Sample.report2]
           Sample.reportNew Sample.report2 Reference.world0).
  - distinct_ids.
  - left; reflexivity.
  - absent_id.
  - right; left; reflexivity.
  - reflexivity.
  - reflexivity.
  - vm_compute; reflexivity.
Defined.

(** C9 on a worked input: item 1 changed its name only. *)
Lemma name_change_alone_is_silent_witness :
  name (Sample.file "1" "minutes.txt") <> name Sample.report
  /\ exists changes w',
      detectChanges Reference.diffChars JS.toLowerCase Reference.unavailable
                    [Sample.file "1" "minutes.txt"] (Some [Sample.report])
                    Reference.world0
      = (Returned changes, w')
      /\ filter (concerns "1") changes = [].
Proof.
  split; [discriminate|].
  apply (name_change_alone_is_silent Reference.diffChars JS.toLowerCase unit string
           Reference.unavailable
           [Sample.file "1" "minutes.txt"] [Sample.report]
           (Sample.file "1" "minutes.txt") Sample.report Reference.world0).
  - distinct_ids.
  - distinct_ids.
  - left; reflexivity.
  - left; reflexivity.
  - reflexivity.
  - reflexivity.
  - reflexivity.
Defined.

(** C10 on a worked input: two previous items named [report1.txt], both
    absent from current. *)
Lemma removed_iff_name_not_renamed_witness :
  NoDup (ids [Sample.file "2" "report1.txt"; Sample.file "3" "report1.txt"])
  /\ exists changes w',
      detectChanges Reference.diffChars JS.toLowerCase Reference.unavailable
                    [Sample.reportNew]
                    (Some [Sample.file "2" "report1.txt"; Sample.file "3" "report1.txt"])
                    Reference.world0
      = (Returned changes, w')
      /\ (forall P,
             In P [Sample.file "2" "report1.txt"; Sample.file "3" "report1.txt"] ->
             ~ In (id P) (ids [Sample.reportNew]) ->
             (In (Removed P) changes
              <-> forall subject score, ~ In (Renamed subject (name P) score) changes))
      /\ (forall P1 P2 subject score,
             In P1 [Sample.file "2" "report1.txt"; Sample.file "3" "report1.txt"] ->
             In P2 [Sample.file "2" "report1.txt"; Sample.file "3" "report1.txt"] ->
             P1 <> P2 ->
             ~ In (id P1) (ids [Sample.reportNew]) ->
             ~ In (id P2) (ids [Sample.reportNew]) ->
             name P1 = name P2 ->
             In (Renamed subject (name P1) score) changes ->
             ~ In (Removed P1) changes /\ ~ In (Removed P2) changes).
Proof.
  split; [distinct_ids|].
  apply (removed_iff_name_not_renamed Reference.diffChars JS.toLowerCase unit string
           Reference.unavailable [Sample.reportNew]
           [Sample.file "2" "report1.txt"; Sample.file "3" "report1.txt"]
           Reference.world0).
  distinct_ids.
Defined.

(** C4, as amended, with the reference diff: on [.env] and [.gitignore],
    both empty without extension, and on [Report.txt] and [report1.txt]. *)
Lemma similarity_of_empty_names_is_NaN_witness :
  JS.toLowerCase "" = ""
  /\ (calculateNameSimilarity Reference.diffChars JS.toLowerCase ".env" ".gitignore"
      = JS.NaN
      /\ JS.gt (calculateNameSimilarity Reference.diffChars JS.toLowerCase
                                        ".env" ".gitignore") threshold = false)
  /\ (exists q,
         calculateNameSimilarity Reference.diffChars JS.toLowerCase
                                 "Report.txt" "report1.txt" = JS.Finite q
         /\ (0 <= q)%Q /\ (q <= 1)%Q).
Proof.
  split; [reflexivity|]. split.
  - destruct (similarity_of_empty_names_is_NaN Reference.diffChars JS.toLowerCase
                reference_diffChars_bound eq_refl ".env" ".gitignore")
      as [Hempty _].
    destruct (Hempty eq_refl eq_refl) as [_ H]. exact H.
  - destruct (similarity_of_empty_names_is_NaN Reference.diffChars JS.toLowerCase
                reference_diffChars_bound eq_refl "Report.txt" "report1.txt")
      as [_ Hother].
    destruct Hother as [q [Hq [Hpos Hone]]]; [left; discriminate|].
    exists q. split; [exact Hq|]. split; [exact Hpos|].
    apply Hone. left. simpl. lia.
Defined.


(** * Further properties of the tracker *)

(** ** Names and scores *)

Lemma allNotSlashDot_dot : forall a b,
    JS.allNotSlashDot (a ++ String "." b) = false.
Proof.
  induction a as [|c a IH]; intros b; simpl.
  - reflexivity.
  - rewrite IH. apply andb_false_r.
Qed.

(** X1.  Removing the extension undoes appending one: for every name [n] and
    every non-empty extension free of [/] and [.], the name [n.ext] is cut
    back to [n]; only this last extension goes, dots inside [n] stay. *)
Theorem replaceExtension_appended : forall n ext,
    ext <> "" ->
    JS.allNotSlashDot ext = true ->
    JS.replaceExtension (n ++ "." ++ ext) = n.
Proof.
  intros n ext Hne Hext. change ("." ++ ext)%string with (String "." ext).
  induction n as [|c n IH].
  - simpl. destruct ext as [|e ext]; [contradiction|].
    simpl in Hext. simpl. rewrite Hext. reflexivity.
  - change ((String c n) ++ String "." ext)%string
      with (String c (n ++ String "." ext)%string).
    cbn [JS.replaceExtension]. rewrite allNotSlashDot_dot, andb_false_r, IH.
    reflexivity.
Qed.

Lemma replaceExtension_appended_witness :
  JS.replaceExtension ("archive.tar" ++ "." ++ "gz") = "archive.tar".
Proof.
  apply (replaceExtension_appended "archive.tar" "gz").
  - discriminate.
  - reflexivity.
Defined.

(** X2.  What is removed from a name is nothing, or a final dot followed by
    one or more characters other than [/] and [.]: the result is always a
    prefix of the name, and the rest has that form. *)
Theorem replaceExtension_removes_extension_only : forall n,
    exists suffix,
      n = (JS.replaceExtension n ++ suffix)%string
      /\ (suffix = ""
          \/ exists ext, suffix = ("." ++ ext)%string /\ ext <> ""
                         /\ JS.allNotSlashDot ext = true).
Proof.
  induction n as [|c n [suffix [Heq Hsuffix]]].
  - exists "". split; [reflexivity | left; reflexivity].
  - simpl JS.replaceExtension.
    destruct (Ascii.eqb c "." && negb (JS.isEmpty n) && JS.allNotSlashDot n) eqn:Hm.
    + apply andb_true_iff in Hm. destruct Hm as [Hm Hall].
      apply andb_true_iff in Hm. destruct Hm as [Hdot Hne].
      apply Ascii.eqb_eq in Hdot. subst c.
      exists (String "." n). split; [reflexivity|]. right.
      exists n. repeat split; [|exact Hall].
      intros Hn. subst n. discriminate.
    + exists suffix. split; [simpl; rewrite <- Heq; reflexivity | exact Hsuffix].
Qed.

Section Scores.
Variable diffChars : string -> string -> list Part.
Variable toLowerCase : string -> string.


(** X4.  Provided the character diff of a string with itself reports all of
    it unchanged: a name whose extension-free part is not empty and keeps its
    length when lower-cased (as every ASCII name does) scores exactly 1
    against itself, which is above the threshold. *)
Theorem similarity_of_equal_names : forall n,
    (forall s, unchangedLength (diffChars s s) = String.length s) ->
    JS.replaceExtension n <> "" ->
    String.length (toLowerCase (JS.replaceExtension n))
    = String.length (JS.replaceExtension n) ->
    exists q,
      calculateNameSimilarity diffChars toLowerCase n n = JS.Finite q
      /\ (q == 1)%Q
      /\ JS.gt (calculateNameSimilarity diffChars toLowerCase n n) threshold = true.
Proof.
  intros n Hdiff Hne Hlen. unfold calculateNameSimilarity.
  rewrite Hdiff, Hlen, Nat.max_id.
  apply isEmpty_length in Hne.
  destruct (String.length (JS.replaceExtension n)) as [|k]; [lia|].
  exists (Z.of_nat (S k) # Pos.of_nat (S k))%Q.
  assert (Hden : Z.pos (Pos.of_nat (S k)) = Z.of_nat (S k)).
  { rewrite <- Pos.of_nat_succ, Zpos_P_of_succ_nat. lia. }
  assert (Hone : (Z.of_nat (S k) # Pos.of_nat (S k) == 1)%Q).
  { unfold Qeq. cbn [Qnum Qden]. rewrite Hden. lia. }
  split; [reflexivity|]. split; [exact Hone|].
  unfold JS.div, JS.gt. apply negb_true_iff.
  destruct (Qle_bool (Z.of_nat (S k) # Pos.of_nat (S k)) threshold) eqn:Hle;
    [|reflexivity].
  apply Qle_bool_iff in Hle. rewrite Hone in Hle.
  unfold threshold, Qle in Hle. simpl in Hle. lia.
Qed.

(** X5.  [findPossibleRename] returns null exactly when no item of the
    previous contents has the current item's mimeType and size together with
    a score above the threshold; in particular on empty contents. *)
Theorem findPossibleRename_null_iff : forall current lastContents,
    findPossibleRename diffChars toLowerCase current lastContents = None
    <-> Forall (fun old => qualifies diffChars toLowerCase current old = false) lastContents.
Proof.
  intros current lastContents. split.
  - induction lastContents as [|old rest IH]; intros Hfind.
    + constructor.
    + rewrite findPossibleRename_step in Hfind.
      destruct (qualifies diffChars toLowerCase current old) eqn:Hq; [discriminate|].
      constructor; [exact Hq | exact (IH Hfind)].
  - apply findPossibleRename_none.
Qed.

End Scores.

Lemma script_same : forall a,
    unchangedLength (Reference.script a a) = List.length a.
Proof.
  induction a as [|x a IH]; [reflexivity|].
  rewrite script_cons, Ascii.eqb_refl, unchangedLength_cons, IH. reflexivity.
Qed.

Lemma reference_diffChars_same : forall s,
    unchangedLength (Reference.diffChars s s) = String.length s.
Proof.
  intros s. unfold Reference.diffChars.
  rewrite script_same. apply list_ascii_length.
Qed.


Lemma similarity_of_equal_names_witness :
  exists q,
    calculateNameSimilarity Reference.diffChars JS.toLowerCase "report.txt" "report.txt"
    = JS.Finite q
    /\ (q == 1)%Q
    /\ JS.gt (calculateNameSimilarity Reference.diffChars JS.toLowerCase "report.txt" "report.txt")
             threshold = true.
Proof.
  apply (similarity_of_equal_names Reference.diffChars JS.toLowerCase "report.txt").
  - exact reference_diffChars_same.
  - discriminate.
  - reflexivity.
Defined.

(** ** Modification details and revision details in general *)

Section Details.
Variable Drive : Type.
Variable Error : Type.
Variable revisionsList : string -> Drive -> (Error + RevisionsResponse) * Drive.

Lemma lastElement_none : forall (A : Type) (xs : list A),
    lastElement xs = None <-> xs = [].
Proof.
  intros A xs. split.
  - induction xs as [|x r IH]; [reflexivity|].
    simpl. destruct r as [|y r]; [discriminate|].
    intros H. apply IH in H. discriminate.
  - intros H. subst xs. reflexivity.
Qed.

(** X6.  [getModificationDetails] never rejects, whatever the revision
    service does.  Its result always holds the previous and new modification
    times and sizes (0 for a missing size) and their signed difference, and
    it has a revision field exactly when the item's mimeType contains
    [document]. *)
Theorem getModificationDetails_always_returns : forall current previous w,
    exists details w',
      getModificationDetails revisionsList current previous w = (Returned details, w')
      /\ previousModifiedTime details = modifiedTime previous
      /\ newModifiedTime details = modifiedTime current
      /\ previousSize details = sizeOrZero previous
      /\ newSize details = sizeOrZero current
      /\ sizeDelta details = (newSize details - previousSize details)%Z
      /\ (revisionInfo details = None <-> isDocument current = false).
Proof.
  intros current previous w.
  destruct (getModificationDetails_returns Drive Error revisionsList current previous w)
    as [details [w' Hrun]].
  exists details, w'. split; [exact Hrun|].
  destruct (getModificationDetails_result _ _ _ _ _ _ _ _ Hrun)
    as [[Hdoc [Hd _]]|[Hdoc [r Hd]]]; subst details; simpl;
    repeat split; auto; try discriminate; congruence.
Qed.

(** X7.  [getRevisionDetails] never rejects.  It returns null, after logging
    the error, exactly when the listing is rejected; otherwise it returns the
    number of listed revisions and the last one (0 and null when the response
    has no list), logs nothing, and the last revision is null exactly when
    the count is 0. *)
Theorem getRevisionDetails_result : forall fileId w,
    exists r w',
      getRevisionDetails revisionsList fileId w = (Returned r, w')
      /\ ((exists e,
              fst (revisionsList fileId (drive w)) = inl e
              /\ r = None
              /\ logged w' = logged w
                             ++ [LogError ("Error fetching revision details for file "
                                           ++ fileId ++ ":") e])
          \/ (exists response details,
                 fst (revisionsList fileId (drive w)) = inr response
                 /\ r = Some details
                 /\ logged w' = logged w
                 /\ revisionCount details
                    = match revisions response with
                      | Some rs => List.length rs
                      | None => 0
                      end
                 /\ lastRevision details
                    = match revisions response with
                      | Some rs => lastElement rs
                      | None => None
                      end
                 /\ (lastRevision details = None <-> revisionCount details = 0))).
Proof.
  intros fileId w.
  unfold getRevisionDetails, tryCatch, bind, awaitRevisionsList, ret, log.
  destruct (revisionsList fileId (drive w)) as [[e|response] d]; simpl.
  - eexists _, _. split; [reflexivity|]. left. exists e. auto.
  - eexists _, _. split; [reflexivity|]. right.
    eexists response, _. repeat split; simpl.
    + destruct (revisions response) as [rs|]; [|reflexivity].
      intros H. apply lastElement_none in H. subst rs. reflexivity.
    + destruct (revisions response) as [rs|]; [|reflexivity].
      intros H. apply lastElement_none. destruct rs; [reflexivity|discriminate].
Qed.

End Details.

(** ** The result of [detectChanges] in general *)

Section Results.
Variable diffChars : string -> string -> list Part.
Variable toLowerCase : string -> string.
Variable Drive : Type.
Variable Error : Type.
Variable revisionsList : string -> Drive -> (Error + RevisionsResponse) * Drive.

Lemma filter_all : forall (A : Type) (f : A -> bool) (l : list A),
    (forall x, In x l -> f x = true) -> filter f l = l.
Proof.
  intros A f l. induction l as [|x r IH]; intros Hall; simpl.
  - reflexivity.
  - rewrite (Hall x) by (left; reflexivity). f_equal.
    apply IH. intros y Hy. apply Hall. right. exact Hy.
Qed.

Lemma findPossibleRename_none_inv : forall current lastContents,
    findPossibleRename diffChars toLowerCase current lastContents = None ->
    Forall (fun old => qualifies diffChars toLowerCase current old = false) lastContents.
Proof.
  intros current lastContents.
  induction lastContents as [|old rest IH]; intros Hfind.
  - constructor.
  - rewrite findPossibleRename_step in Hfind.
    destruct (qualifies diffChars toLowerCase current old) eqn:Hq; [discriminate|].
    constructor; [exact Hq | exact (IH Hfind)].
Qed.

Lemma pushes_other_ids : forall lastContents lastMap l outs i,
    Forall2 (entryOut diffChars toLowerCase revisionsList lastContents lastMap)
            (idEntries l) outs ->
    ~ In i (ids l) ->
    filter (concerns i) (List.concat outs) = [].
Proof.
  intros lastContents lastMap l outs i Hall Hnot.
  apply filter_concerns_none. intros c Hc.
  destruct (in_concat_Forall2 _ _ _ _ _ _ Hall Hc) as [e [out [He [Hout Hin]]]].
  destruct (entryOut_item _ _ _ _ _ _ _ _ _ _ Hout Hin) as [Hitem _].
  rewrite Hitem. apply idEntries_in in He. destruct He as [_ He].
  intros Heq. apply Hnot. rewrite <- Heq. apply in_map, He.
Qed.

Lemma removed_not_current : forall current previous changes i,
    In i (ids current) ->
    filter (concerns i)
           (removedChanges (JS.newMap (idEntries current))
                           (JS.newMap (idEntries previous)) changes) = [].
Proof.
  intros current previous changes i Hin.
  apply filter_concerns_none. intros c Hc Heq.
  apply in_removedChanges in Hc. destruct Hc as [e [He [Hc [Hhas _]]]].
  subst c. simpl in Heq. apply idMap_in in He. destruct He as [Hfst _].
  assert (Htrue : JS.has (fst e) (JS.newMap (idEntries current)) = true).
  { apply idMap_has. rewrite Hfst, Heq. exact Hin. }
  rewrite Htrue in Hhas. discriminate.
Qed.

(** With distinct ids in current, the changes about the id of a current
    item are exactly what its iteration of the first loop pushes. *)
Lemma changes_about_current : forall (current previous : Snapshot) X w,
    NoDup (ids current) ->
    In X current ->
    exists changes w' out,
      detectChanges diffChars toLowerCase revisionsList current (Some previous) w
      = (Returned changes, w')
      /\ entryOut diffChars toLowerCase revisionsList previous
                  (JS.newMap (idEntries previous)) (id X, X) out
      /\ filter (concerns (id X)) changes = out.
Proof.
  intros current previous X w Hnd HX.
  destruct (detectChanges_shape diffChars toLowerCase Drive Error revisionsList current previous w)
    as [outs [w' [Hrun Houts]]].
  eexists _, w'.
  pose proof Houts as Hsplit.
  rewrite (idMap_nodup current Hnd) in Hsplit.
  destruct (in_split X current HX) as [c1 [c2 Hcur]].
  assert (Hentries : idEntries current = idEntries c1 ++ (id X, X) :: idEntries c2).
  { rewrite Hcur. unfold idEntries. rewrite map_app. reflexivity. }
  rewrite Hentries in Hsplit.
  apply Forall2_app_inv_l in Hsplit.
  destruct Hsplit as [o1 [orest [Ho1 [Horest Hos]]]].
  destruct orest as [|out o2]; [inversion Horest|].
  apply Forall2_cons_iff in Horest. destruct Horest as [Hout Ho2].
  exists out. split; [exact Hrun|]. split; [exact Hout|].
  assert (Hnd' : NoDup (ids c1 ++ id X :: ids c2)).
  { rewrite Hcur in Hnd. unfold ids in *. rewrite map_app in Hnd. exact Hnd. }
  assert (Hc1 : ~ In (id X) (ids c1)).
  { intros Hin. apply NoDup_remove_2 in Hnd'. apply Hnd'.
    apply in_or_app. left. exact Hin. }
  assert (Hc2 : ~ In (id X) (ids c2)).
  { intros Hin. apply NoDup_remove_2 in Hnd'. apply Hnd'.
    apply in_or_app. right. exact Hin. }
  rewrite filter_app, removed_not_current, app_nil_r
    by (apply in_map, HX).
  rewrite Hos, concat_app, filter_app.
  change (List.concat (out :: o2)) with (out ++ List.concat o2).
  rewrite filter_app.
  rewrite (pushes_other_ids _ _ c1 o1 (id X) Ho1 Hc1).
  rewrite (pushes_other_ids _ _ c2 o2 (id X) Ho2 Hc2).
  rewrite app_nil_r. simpl. apply filter_all.
  intros c Hc. destruct (entryOut_item _ _ _ _ _ _ _ _ _ _ Hout Hc) as [Hitem _].
  unfold concerns. rewrite Hitem. apply String.eqb_refl.
Qed.

(** X8.  [detectChanges] never rejects, whatever the revision service does,
    and its result is in two parts: first the changes of the loop over
    current, none of them [removed] and each about an item of current; then
    the [removed] changes, each about an item of previous whose id current
    lacks. *)
Theorem detectChanges_returns_in_two_parts :
  forall (current previous : Snapshot) w,
    exists pushed removed w',
      detectChanges diffChars toLowerCase revisionsList current (Some previous) w
      = (Returned (pushed ++ removed), w')
      /\ (forall c, In c pushed ->
                    In (changeItem c) current /\ forall item, c <> Removed item)
      /\ (forall c, In c removed ->
                    exists P, c = Removed P /\ In P previous
                              /\ ~ In (id P) (ids current)).
Proof.
  intros current previous w.
  destruct (detectChanges_shape diffChars toLowerCase Drive Error revisionsList current previous w)
    as [outs [w' [Hrun Houts]]].
  eexists _, _, w'. split; [exact Hrun|]. split.
  - intros c Hc.
    destruct (in_concat_Forall2 _ _ _ _ _ _ Houts Hc) as [e [out [He [Hout Hin]]]].
    destruct (entryOut_item _ _ _ _ _ _ _ _ _ _ Hout Hin) as [Hitem Hno].
    split; [|exact Hno]. rewrite Hitem. apply idMap_in in He. apply He.
  - intros c Hc. apply in_removedChanges in Hc.
    destruct Hc as [e [He [Hc [Hhas _]]]].
    exists (snd e). split; [exact Hc|].
    apply idMap_in in He. destruct He as [Hfst He]. split; [exact He|].
    intros Hin. rewrite <- Hfst in Hin. apply idMap_has in Hin.
    rewrite Hin in Hhas. discriminate.
Qed.

(** X9.  With distinct ids in both snapshots, the changes about an item
    whose id is in both are exactly: a [modified] change when its
    modifiedTime differs, carrying the previous and new times and sizes,
    followed by a [moved] change when its first parent differs, carrying the
    old and the new parent.  So a move alone gives one [moved] change, and an
    item can be both modified and moved. *)
Theorem changes_of_matched_item :
  forall (current previous : Snapshot) (X X' : Item) w,
    NoDup (ids current) ->
    NoDup (ids previous) ->
    In X current ->
    In X' previous ->
    id X = id X' ->
    exists changes w' details,
      detectChanges diffChars toLowerCase revisionsList current (Some previous) w
      = (Returned changes, w')
      /\ previousModifiedTime details = modifiedTime X'
      /\ newModifiedTime details = modifiedTime X
      /\ sizeDelta details = (sizeOrZero X - sizeOrZero X')%Z
      /\ filter (concerns (id X)) changes
         = (if String.eqb (modifiedTime X) (modifiedTime X') then []
            else [Modified X details])
           ++ (if JS.strictEqStr (parent0 X) (parent0 X') then []
               else [Moved X (parent0 X') (parent0 X)]).
Proof.
  intros current previous X X' w Hndc Hndp HX HX' Hid.
  destruct (changes_about_current current previous X w Hndc HX)
    as [changes [w' [out [Hrun [Hout Hfilter]]]]].
  unfold entryOut in Hout. simpl fst in Hout. simpl snd in Hout.
  rewrite Hid, (idMap_get_item previous X' Hndp HX') in Hout.
  destruct Hout as [modified [Hmod Hout]].
  destruct (String.eqb (modifiedTime X) (modifiedTime X')).
  - exists changes, w', (baseDetails X X'). subst modified out.
    repeat split; auto.
  - destruct Hmod as [details [[w1 [w2 Hprod]] Hmod]].
    exists changes, w', details. subst modified out.
    split; [exact Hrun|].
    destruct (getModificationDetails_result _ _ _ _ _ _ _ _ Hprod)
      as [[_ [Hd _]]|[_ [r Hd]]]; subst details; simpl; repeat split; auto.
Qed.

(** X10.  With distinct ids in current, an item of current whose id previous
    lacks is reported [added] exactly when no item of previous qualifies as
    its rename source; the [added] change is then the only change about
    it. *)
Theorem added_iff_no_candidate :
  forall (current previous : Snapshot) (C : Item) w,
    NoDup (ids current) ->
    In C current ->
    ~ In (id C) (ids previous) ->
    exists changes w',
      detectChanges diffChars toLowerCase revisionsList current (Some previous) w
      = (Returned changes, w')
      /\ (In (Added C) changes
          <-> Forall (fun old => qualifies diffChars toLowerCase C old = false) previous)
      /\ (Forall (fun old => qualifies diffChars toLowerCase C old = false) previous ->
          filter (concerns (id C)) changes = [Added C]).
Proof.
  intros current previous C w Hnd HC Habsent.
  destruct (changes_about_current current previous C w Hnd HC)
    as [changes [w' [out [Hrun [Hout Hfilter]]]]].
  unfold entryOut in Hout. simpl fst in Hout. simpl snd in Hout.
  rewrite (proj2 (idMap_get_none previous (id C)) Habsent) in Hout.
  exists changes, w'. split; [exact Hrun|].
  assert (Hin : In (Added C) changes <-> In (Added C) out).
  { rewrite <- Hfilter, filter_In. unfold concerns. simpl.
    rewrite String.eqb_refl. tauto. }
  split.
  - rewrite Hin. subst out. split.
    + intros [Heq|[]].
      destruct (findPossibleRename diffChars toLowerCase C previous) as [r|] eqn:Hfind;
        [discriminate|].
      exact (findPossibleRename_none_inv C previous Hfind).
    + intros Hall. rewrite (findPossibleRename_none diffChars toLowerCase C previous Hall).
      left. reflexivity.
  - intros Hall. rewrite Hfilter. subst out.
    rewrite (findPossibleRename_none diffChars toLowerCase C previous Hall). reflexivity.
Qed.

(** X11.  Every [renamed] change of the result is about an item of current
    whose id previous lacks, and carries the name of an item of previous with
    the same mimeType and size together with the score of the two names, a
    score above the threshold. *)
Theorem renamed_changes_are_justified :
  forall (current previous : Snapshot) w,
    exists changes w',
      detectChanges diffChars toLowerCase revisionsList current (Some previous) w
      = (Returned changes, w')
      /\ forall item oldName score,
          In (Renamed item oldName score) changes ->
          In item current
          /\ ~ In (id item) (ids previous)
          /\ exists P,
              In P previous
              /\ oldName = name P
              /\ JS.strictEqStr (mimeType item) (mimeType P) = true
              /\ JS.strictEqNum (size item) (size P) = true
              /\ score = calculateNameSimilarity diffChars toLowerCase (name item) (name P)
              /\ JS.gt score threshold = true.
Proof.
  intros current previous w.
  destruct (detectChanges_shape diffChars toLowerCase Drive Error revisionsList current previous w)
    as [outs [w' [Hrun Houts]]].
  eexists _, w'. split; [exact Hrun|].
  intros item oldName score Hin. apply in_app_or in Hin.
  destruct Hin as [Hin|Hin].
  - destruct (in_concat_Forall2 _ _ _ _ _ _ Houts Hin) as [e [out [He [Hout Hc]]]].
    destruct (entryOut_renamed _ _ _ _ _ _ _ _ _ _ _ _ Hout Hc)
      as [Hitem [Hget Hfind]].
    apply idMap_in in He. destruct He as [Hfst He]. subst item.
    split; [exact He|]. split.
    + rewrite <- Hfst. apply idMap_get_none. exact Hget.
    + destruct (findPossibleRename_some diffChars toLowerCase _ _ _ Hfind)
        as [P [HP [Hq Hr]]].
      injection Hr as Hname Hscore. exists P.
      unfold qualifies in Hq. apply andb_true_iff in Hq. destruct Hq as [Hq Hgt].
      apply andb_true_iff in Hq. destruct Hq as [Hmime Hsize].
      subst score. repeat split; assumption.
  - apply in_removedChanges in Hin. destruct Hin as [e [_ [Hc _]]]. discriminate.
Qed.

End Results.

(** ** Snapshots without common ids, and runs that stay local *)

Section Disjoint.
Variable diffChars : string -> string -> list Part.
Variable toLowerCase : string -> string.
Variable Drive : Type.
Variable Error : Type.
Variable revisionsList : string -> Drive -> (Error + RevisionsResponse) * Drive.

Lemma forEachEntry_all_added : forall lastContents lastMap entries changes w,
    (forall e, In e entries ->
               JS.get (fst e) lastMap = None
               /\ findPossibleRename diffChars toLowerCase (snd e) lastContents = None) ->
    forEachEntry (checkCurrent diffChars toLowerCase revisionsList lastContents lastMap)
                 entries changes w
    = (Returned (changes ++ map (fun e => Added (snd e)) entries), w).
Proof.
  intros lastContents lastMap entries.
  induction entries as [|entry rest IH]; intros changes w Hall; simpl.
  - rewrite app_nil_r. reflexivity.
  - destruct (Hall entry (or_introl eq_refl)) as [Hget Hfind].
    unfold bind, checkCurrent at 1. rewrite Hget, Hfind. unfold ret at 1.
    rewrite IH by (intros e He; apply Hall; right; exact He).
    rewrite <- app_assoc. reflexivity.
Qed.

Lemma wasRenamed_added : forall item l,
    wasRenamed item (map Added l) = false.
Proof.
  intros item l. induction l as [|x r IH]; [reflexivity | exact IH].
Qed.

Lemma detectChanges_disjoint_run : forall (current previous : Snapshot) w,
    NoDup (ids current) ->
    NoDup (ids previous) ->
    (forall C, In C current -> ~ In (id C) (ids previous)) ->
    (forall C P, In C current -> In P previous -> qualifies diffChars toLowerCase C P = false) ->
    detectChanges diffChars toLowerCase revisionsList current (Some previous) w
    = (Returned (map Added current ++ map Removed previous), w).
Proof.
  intros current previous w Hndc Hndp Hdisj Hnoq.
  assert (Hadded : map (fun e : string * Item => Added (snd e)) (idEntries current)
                   = map Added current).
  { unfold idEntries. rewrite map_map. reflexivity. }
  assert (Hremoved : map (fun e : string * Item => Removed (snd e))
                         (idEntries previous)
                     = map Removed previous).
  { unfold idEntries. rewrite map_map. reflexivity. }
  unfold detectChanges, bind.
  rewrite (idMap_nodup current Hndc).
  rewrite forEachEntry_all_added.
  - unfold ret. rewrite removal_loop. simpl app. rewrite Hadded.
    rewrite (idMap_nodup previous Hndp).
    unfold removedChanges. rewrite filter_all.
    + rewrite Hremoved. reflexivity.
    + intros e He. apply idEntries_in in He. destruct He as [Hfst He].
      rewrite wasRenamed_added.
      destruct (JS.has (fst e) (idEntries current)) eqn:Hhas; [|reflexivity].
      exfalso. apply has_true_iff in Hhas. rewrite idEntries_keys in Hhas.
      unfold ids in Hhas. apply in_map_iff in Hhas.
      destruct Hhas as [C [HidC HC]].
      apply (Hdisj C HC). rewrite HidC, Hfst. apply in_map, He.
  - intros e He. apply idEntries_in in He. destruct He as [Hfst He]. split.
    + apply idMap_get_none. rewrite Hfst. apply Hdisj, He.
    + apply findPossibleRename_none. apply Forall_forall.
      intros P HP. apply Hnoq; assumption.
Qed.

(** X12.  Two snapshots with distinct ids that share no id and have no
    rename candidate (no current item qualifies against any previous item)
    give every current item as [added], in current order, followed by every
    previous item as [removed], in previous order; nothing is fetched or
    logged. *)
Theorem detectChanges_disjoint_snapshots :
  forall (current previous : Snapshot) w,
    NoDup (ids current) ->
    NoDup (ids previous) ->
    (forall C, In C current -> ~ In (id C) (ids previous)) ->
    (forall C P, In C current -> In P previous -> qualifies diffChars toLowerCase C P = false) ->
    detectChanges diffChars toLowerCase revisionsList current (Some previous) w
    = (Returned (map Added current ++ map Removed previous), w).
Proof.
  exact detectChanges_disjoint_run.
Qed.

(** X13.  Against an empty current snapshot every item of a previous
    snapshot with distinct ids is reported [removed], in order; against an
    empty (non-null) previous snapshot every item of a current snapshot with
    distinct ids is reported [added], in order. *)
Theorem detectChanges_empty_side :
  forall (snapshot : Snapshot) w,
    NoDup (ids snapshot) ->
    detectChanges diffChars toLowerCase revisionsList [] (Some snapshot) w
    = (Returned (map Removed snapshot), w)
    /\ detectChanges diffChars toLowerCase revisionsList snapshot (Some []) w
       = (Returned (map Added snapshot), w).
Proof.
  intros snapshot w Hnd. split.
  - apply (detectChanges_disjoint_run [] snapshot w).
    + constructor.
    + exact Hnd.
    + intros C [].
    + intros C P [].
  - assert (Hrun : detectChanges diffChars toLowerCase revisionsList snapshot (Some []) w
                   = (Returned (map Added snapshot ++ map Removed []), w)).
    { apply (detectChanges_disjoint_run snapshot [] w).
      + exact Hnd.
      + constructor.
      + intros C _ [].
      + intros C P _ []. }
    simpl map in Hrun. rewrite app_nil_r in Hrun. exact Hrun.
Qed.

Lemma checkCurrent_local : forall lastContents lastMap changes entry w,
    isDocument (snd entry) = false ->
    exists out,
      checkCurrent diffChars toLowerCase revisionsList lastContents lastMap changes entry w
      = (Returned (changes ++ out), w)
      /\ forall item details,
          In (Modified item details) out ->
          exists last, details = baseDetails item last.
Proof.
  intros lastContents lastMap changes entry w Hdoc.
  unfold checkCurrent.
  destruct (JS.get (fst entry) lastMap) as [last|].
  - unfold bind, getModificationDetails. rewrite Hdoc.
    destruct (String.eqb (modifiedTime (snd entry)) (modifiedTime last));
      destruct (JS.strictEqStr (parent0 (snd entry)) (parent0 last));
      cbn [negb]; cbv beta iota; unfold ret.
    + exists []. split; [rewrite app_nil_r; reflexivity|]. intros ? ? [].
    + eexists. split; [reflexivity|].
      intros item details [Hin|[]]. discriminate.
    + eexists. split; [reflexivity|].
      intros item details [Hin|[]]. injection Hin as Hi Hd. subst. eauto.
    + eexists. split; [rewrite <- app_assoc; reflexivity|].
      intros item details [Hin|[Hin|[]]]; [|discriminate].
      injection Hin as Hi Hd. subst. eauto.
  - destruct (findPossibleRename diffChars toLowerCase (snd entry) lastContents);
      unfold ret; eexists; (split; [reflexivity|]);
      intros item details [Hin|[]]; discriminate.
Qed.

Lemma forEachEntry_local : forall lastContents lastMap entries changes w,
    (forall e, In e entries -> isDocument (snd e) = false) ->
    exists out,
      forEachEntry (checkCurrent diffChars toLowerCase revisionsList lastContents lastMap)
                   entries changes w
      = (Returned (changes ++ out), w)
      /\ forall item details,
          In (Modified item details) out ->
          exists last, details = baseDetails item last.
Proof.
  intros lastContents lastMap entries.
  induction entries as [|entry rest IH]; intros changes w Hall; simpl.
  - exists []. rewrite app_nil_r. split; [reflexivity|]. intros ? ? [].
  - destruct (checkCurrent_local lastContents lastMap changes entry w
                (Hall entry (or_introl eq_refl))) as [out1 [Hrun1 Hd1]].
    unfold bind. rewrite Hrun1.
    destruct (IH (changes ++ out1) w (fun e He => Hall e (or_intror He)))
      as [out2 [Hrun2 Hd2]].
    exists (out1 ++ out2). split.
    + rewrite Hrun2, app_assoc. reflexivity.
    + intros item details Hin. apply in_app_or in Hin.
      destruct Hin as [Hin|Hin]; eauto.
Qed.

(** X14.  When no item of current has a mimeType containing [document],
    [detectChanges] leaves the remote service and the log untouched, and the
    details of every [modified] change have no revision field. *)
Theorem detectChanges_without_documents :
  forall (current previous : Snapshot) w,
    (forall X, In X current -> isDocument X = false) ->
    exists changes,
      detectChanges diffChars toLowerCase revisionsList current (Some previous) w
      = (Returned changes, w)
      /\ forall item details,
          In (Modified item details) changes ->
          revisionInfo details = None.
Proof.
  intros current previous w Hnone. unfold detectChanges, bind.
  destruct (forEachEntry_local previous (JS.newMap (idEntries previous))
              (JS.newMap (idEntries current)) [] w) as [out [Hrun Hd]].
  { intros e He. apply idMap_in in He. apply Hnone, He. }
  rewrite Hrun. unfold ret. rewrite removal_loop. eexists. split; [reflexivity|].
  intros item details Hin. apply in_app_or in Hin. destruct Hin as [Hin|Hin].
  - destruct (Hd item details Hin) as [last Hl]. subst details. reflexivity.
  - apply in_removedChanges in Hin. destruct Hin as [e [_ [Hc _]]]. discriminate.
Qed.

End Disjoint.

(** ** Parent names and folder traversal *)

Section Remote.
Variable Drive : Type.
Variable Error : Type.
Variable filesList : string -> Drive -> (Error + list Item) * Drive.
Variable filesGet : string -> string -> Drive -> (Error + FileData) * Drive.

(** X15.  [getParentFolderName] never rejects.  When one of its [files.get]
    calls is rejected (the one for the parents of the file, or the one for
    the name of the first parent), it logs that very error, once, and
    returns [unknown]; when none is rejected it logs nothing. *)
Theorem getParentFolderName_never_rejects : forall fileId w,
    exists r w',
      getParentFolderName filesGet fileId w = (Returned r, w')
      /\ (forall e,
             (exists d1, filesGet fileId "parents" (drive w) = (inl e, d1))
             \/ (exists data d1 parentId others d2,
                    filesGet fileId "parents" (drive w) = (inr data, d1)
                    /\ dataParents data = Some (parentId :: others)
                    /\ filesGet parentId "name" d1 = (inl e, d2)) ->
             r = Some "unknown"
             /\ logged w' = logged w
                            ++ [LogError "Error fetching parent folder name:" e])
      /\ ((forall e,
              ~ ((exists d1, filesGet fileId "parents" (drive w) = (inl e, d1))
                 \/ (exists data d1 parentId others d2,
                        filesGet fileId "parents" (drive w) = (inr data, d1)
                        /\ dataParents data = Some (parentId :: others)
                        /\ filesGet parentId "name" d1 = (inl e, d2)))) ->
          logged w' = logged w).
Proof.
  intros fileId w.
  unfold getParentFolderName, tryCatch, bind, awaitFilesGet, ret, log.
  destruct (filesGet fileId "parents" (drive w)) as [[e1|data] d1] eqn:Hfirst; simpl.
  - eexists _, _. split; [reflexivity|]. split.
    + intros e [[d Hd]|[data [d [p [others [d2 [Hd _]]]]]]]; [|discriminate].
      injection Hd as He _. subst e. split; reflexivity.
    + intros Hnone. exfalso. apply (Hnone e1). left. exists d1. reflexivity.
  - destruct (dataParents data) as [[|parentId others]|] eqn:Hparents; simpl.
    + eexists _, _. split; [reflexivity|]. split; [|reflexivity].
      intros e [[d Hd]|[data' [d [p [others [d2 [Hd [Hp _]]]]]]]]; [discriminate|].
      injection Hd as Hdata _. subst data'. congruence.
    + destruct (filesGet parentId "name" d1) as [[e2|parent] d2] eqn:Hsecond; simpl.
      * eexists _, _. split; [reflexivity|]. split.
        -- intros e [[d Hd]|[data' [d [p [others' [d2' [Hd [Hp Hs]]]]]]]];
             [discriminate|].
           injection Hd as Hdata Hd1. subst data' d.
           rewrite Hparents in Hp. injection Hp as Hp _. subst p.
           rewrite Hsecond in Hs. injection Hs as He _. subst e.
           split; reflexivity.
        -- intros Hnone. exfalso. apply (Hnone e2). right.
           exists data, d1, parentId, others, d2. auto.
      * eexists _, _. split; [reflexivity|]. split; [|reflexivity].
        intros e [[d Hd]|[data' [d [p [others' [d2' [Hd [Hp Hs]]]]]]]];
          [discriminate|].
        injection Hd as Hdata Hd1. subst data' d.
        rewrite Hparents in Hp. injection Hp as Hp _. subst p.
        rewrite Hsecond in Hs. discriminate.
    + eexists _, _. split; [reflexivity|]. split; [|reflexivity].
      intros e [[d Hd]|[data' [d [p [others [d2 [Hd [Hp _]]]]]]]]; [discriminate|].
      injection Hd as Hdata _. subst data'. congruence.
Qed.

(** X16.  For a file whose [parents] are missing or an empty list,
    [getParentFolderName] returns [root] after that single [files.get] call:
    no second call is made and nothing is logged. *)
Theorem getParentFolderName_root : forall fileId w data d,
    filesGet fileId "parents" (drive w) = (inr data, d) ->
    dataParents data = None \/ dataParents data = Some [] ->
    getParentFolderName filesGet fileId w
    = (Returned (Some "root"), {| drive := d; logged := logged w |}).
Proof.
  intros fileId w data d Hget Hparents.
  unfold getParentFolderName, tryCatch, bind, awaitFilesGet, ret.
  rewrite Hget. destruct Hparents as [Hp|Hp]; rewrite Hp; reflexivity.
Qed.

Lemma eachFile_log :
  forall (recurse : string -> string -> list Listed
                    -> World Drive Error
                    -> Outcome Error (option (list Listed)) * World Drive Error),
    (forall a b c w, logged (snd (recurse a b c w)) = logged w) ->
    forall parentPath files allFiles w,
      logged (snd (eachFile recurse parentPath files allFiles w)) = logged w.
Proof.
  intros recurse Hrec parentPath files.
  induction files as [|file rest IH]; intros allFiles w; simpl.
  - reflexivity.
  - destruct (isFolder file).
    + unfold bind.
      pose proof (Hrec (id file) (pathOf parentPath file)
                    (allFiles ++ [{| listedFile := file;
                                     fullPath := pathOf parentPath file |}]) w)
        as Hlog.
      destruct (recurse (id file) (pathOf parentPath file) _ w) as [[below|e] w1];
        simpl in Hlog.
      * destruct below as [allFiles''|]; [rewrite IH; exact Hlog | exact Hlog].
      * exact Hlog.
    + apply IH.
Qed.

Lemma processFolder_log : forall fuel folderId parentPath allFiles w,
    logged (snd (processFolder filesList fuel folderId parentPath allFiles w))
    = logged w.
Proof.
  induction fuel as [|fuel IH]; intros folderId parentPath allFiles w; simpl.
  - reflexivity.
  - unfold bind, awaitFilesList.
    destruct (filesList folderId (drive w)) as [[e|files] d]; simpl.
    + reflexivity.
    + rewrite eachFile_log; [reflexivity | exact IH].
Qed.

(** X17.  [getFolderContents] logs exactly when it rejects: a run that
    returns leaves the log as it was, and a run that rejects (a listing was
    rejected somewhere in the tree) has logged that very error, once, before
    rethrowing it. *)
Theorem getFolderContents_logs_iff_rejects : forall fuel folderId w,
    match getFolderContents filesList fuel folderId w with
    | (Returned _, w') => logged w' = logged w
    | (Thrown e, w') =>
        logged w' = logged w
                    ++ [LogError "Error fetching folder contents recursively:" e]
    end.
Proof.
  intros fuel folderId w. unfold getFolderContents, tryCatch.
  pose proof (processFolder_log fuel folderId "" [] w) as Hlog.
  destruct (processFolder filesList fuel folderId "" [] w) as [[r|e] w1];
    simpl in Hlog.
  - exact Hlog.
  - unfold bind, log, throw. simpl. rewrite Hlog. reflexivity.
Qed.

Lemma eachFile_flat :
  forall recurse parentPath files allFiles (w : World Drive Error),
    Forall (fun file => isFolder file = false) files ->
    eachFile recurse parentPath files allFiles w
    = (Returned (Some (allFiles
                       ++ map (fun file => {| listedFile := file;
                                              fullPath := pathOf parentPath file |})
                              files)), w).
Proof.
  intros recurse parentPath files allFiles w Hflat. revert allFiles.
  induction Hflat as [|file rest Hfile _ IH]; intros allFiles; simpl.
  - rewrite app_nil_r. reflexivity.
  - rewrite Hfile, IH, <- app_assoc. reflexivity.
Qed.

(** X18.  When the listing of the folder answers with files none of which is
    a folder (in particular with no file at all), [getFolderContents] makes
    that single call and returns the files in listing order, each with its
    name as full path. *)
Theorem getFolderContents_flat_folder : forall fuel folderId w files d,
    filesList folderId (drive w) = (inr files, d) ->
    Forall (fun file => isFolder file = false) files ->
    getFolderContents filesList (S fuel) folderId w
    = (Returned (Some (map (fun file => {| listedFile := file;
                                           fullPath := name file |}) files)),
       {| drive := d; logged := logged w |}).
Proof.
  intros fuel folderId w files d Hlist Hflat.
  unfold getFolderContents, tryCatch. simpl processFolder.
  unfold bind, awaitFilesList. rewrite Hlist.
  rewrite eachFile_flat by exact Hflat. reflexivity.
Qed.

End Remote.

(** ** Traversal of a finite tree *)

Section FiniteTree.
Variable Drive : Type.
Variable Error : Type.

(** The remote tree: the children of each folder id, with a rank that
    decreases from a folder to the folders it lists (the tree is finite and
    has no cycle). *)
Variable children : string -> list Item.
Variable rank : string -> nat.
Hypothesis rank_decreases : forall folderId file,
    In file (children folderId) -> isFolder file = true ->
    rank (id file) < rank folderId.

Local Notation "'service'" :=
  (listing (Drive := Drive) (Error := Error) children).

Lemma world_eta : forall w : World Drive Error,
    {| drive := drive w; logged := logged w |} = w.
Proof.
  intros [d l]. reflexivity.
Qed.

Lemma eachFile_finite : forall n,
    (forall folderId, rank folderId < n -> forall parentPath,
          exists out,
            Walk children parentPath (children folderId) out
            /\ forall fuel allFiles w,
                n <= fuel ->
                processFolder service fuel folderId parentPath allFiles w
                = (Returned (Some (allFiles ++ out)), w)) ->
    forall files parentPath,
      (forall file, In file files -> isFolder file = true -> rank (id file) < n) ->
      exists out,
        Walk children parentPath files out
        /\ forall fuel allFiles w,
            n <= fuel ->
            eachFile (processFolder service fuel) parentPath files allFiles w
            = (Returned (Some (allFiles ++ out)), w).
Proof.
  intros n Hbelow files parentPath.
  induction files as [|file rest IH]; intros Hrank.
  - exists []. split; [constructor|]. intros fuel allFiles w _. simpl.
    rewrite app_nil_r. reflexivity.
  - destruct IH as [out [Hwalk Hrun]].
    { intros f Hf. apply Hrank. right. exact Hf. }
    destruct (isFolder file) eqn:Hfolder.
    + destruct (Hbelow (id file) (Hrank file (or_introl eq_refl) Hfolder)
                  (pathOf parentPath file)) as [below [Hwb Hrb]].
      exists ({| listedFile := file; fullPath := pathOf parentPath file |}
                :: below ++ out).
      split; [apply walk_folder; assumption|].
      intros fuel allFiles w Hfuel. simpl. rewrite Hfolder. unfold bind.
      rewrite Hrb by exact Hfuel. rewrite Hrun by exact Hfuel.
      rewrite <- !app_assoc. reflexivity.
    + exists ({| listedFile := file; fullPath := pathOf parentPath file |} :: out).
      split; [apply walk_file; assumption|].
      intros fuel allFiles w Hfuel. simpl. rewrite Hfolder.
      rewrite Hrun by exact Hfuel. rewrite <- app_assoc. reflexivity.
Qed.

Lemma processFolder_finite : forall n folderId,
    rank folderId < n ->
    forall parentPath,
    exists out,
      Walk children parentPath (children folderId) out
      /\ forall fuel allFiles w,
          n <= fuel ->
          processFolder service fuel folderId parentPath allFiles w
          = (Returned (Some (allFiles ++ out)), w).
Proof.
  induction n as [|n IH]; intros folderId Hrank parentPath; [lia|].
  destruct (eachFile_finite n IH (children folderId) parentPath) as [out [Hwalk Hrun]].
  { intros file Hin Hfolder.
    pose proof (rank_decreases folderId file Hin Hfolder). lia. }
  exists out. split; [exact Hwalk|].
  intros fuel allFiles w Hfuel.
  destruct fuel as [|fuel]; [lia|]. simpl.
  unfold bind, awaitFilesList, listing. rewrite world_eta.
  apply Hrun. lia.
Qed.

Lemma getFolderContents_finite : forall folderId,
    exists out,
      Walk children "" (children folderId) out
      /\ forall fuel w,
          rank folderId < fuel ->
          getFolderContents service fuel folderId w = (Returned (Some out), w).
Proof.
  intros folderId.
  destruct (processFolder_finite (S (rank folderId)) folderId (Nat.lt_succ_diag_r _) "")
    as [out [Hwalk Hrun]].
  exists out. split; [exact Hwalk|].
  intros fuel w Hfuel. unfold getFolderContents, tryCatch.
  rewrite (Hrun fuel [] w) by lia. reflexivity.
Qed.

Lemma walk_lists_files : forall parentPath files out,
    Walk children parentPath files out ->
    forall file, In file files ->
                 In {| listedFile := file; fullPath := pathOf parentPath file |} out.
Proof.
  intros parentPath files out Hwalk.
  induction Hwalk as [p | p f rest out Hf Hw IH | p f rest below out Hf Hb IHb Hw IH];
    intros file Hin.
  - contradiction.
  - destruct Hin as [Heq|Hin]; [subst; left; reflexivity | right; auto].
  - destruct Hin as [Heq|Hin]; [subst; left; reflexivity|].
    right. apply in_or_app. right. auto.
Qed.

Lemma walk_closed : forall parentPath files out,
    Walk children parentPath files out ->
    forall e, In e out -> isFolder (listedFile e) = true ->
              forall file, In file (children (id (listedFile e))) ->
                           In {| listedFile := file;
                                 fullPath := pathOf (fullPath e) file |} out.
Proof.
  intros parentPath files out Hwalk.
  induction Hwalk as [p | p f rest out Hf Hw IH | p f rest below out Hf Hb IHb Hw IH];
    intros e He Hfolder file Hfile.
  - contradiction.
  - destruct He as [Heq|He].
    + subst e. simpl in Hfolder. congruence.
    + right. eauto.
  - destruct He as [Heq|He].
    + subst e. simpl in *. right. apply in_or_app. left.
      apply (walk_lists_files _ _ _ Hb). exact Hfile.
    + right. apply in_or_app. apply in_app_or in He.
      destruct He as [He|He]; [left | right]; eauto.
Qed.

Lemma walk_only : forall parentPath files out,
    Walk children parentPath files out ->
    forall e, In e out ->
              (In (listedFile e) files
               /\ fullPath e = pathOf parentPath (listedFile e))
              \/ exists parent,
                  In parent out
                  /\ isFolder (listedFile parent) = true
                  /\ In (listedFile e) (children (id (listedFile parent)))
                  /\ fullPath e = pathOf (fullPath parent) (listedFile e).
Proof.
  intros parentPath files out Hwalk.
  induction Hwalk as [p | p f rest out Hf Hw IH | p f rest below out Hf Hb IHb Hw IH];
    intros e He.
  - contradiction.
  - destruct He as [Heq|He].
    + subst e. left. simpl. auto.
    + destruct (IH e He) as [[Hin Hpath]|[parent [Hp [Hpf [Hc Hpath]]]]].
      * left. simpl. auto.
      * right. exists parent. simpl. auto.
  - destruct He as [Heq|He].
    + subst e. left. simpl. auto.
    + apply in_app_or in He. destruct He as [He|He].
      * right. destruct (IHb e He) as [[Hin Hpath]|[parent [Hp [Hpf [Hc Hpath]]]]].
        -- exists {| listedFile := f; fullPath := pathOf p f |}. simpl. auto.
        -- exists parent. repeat split; auto.
           right. apply in_or_app. left. exact Hp.
      * destruct (IH e He) as [[Hin Hpath]|[parent [Hp [Hpf [Hc Hpath]]]]].
        -- left. simpl. auto.
        -- right. exists parent. repeat split; auto.
           right. apply in_or_app. right. exact Hp.
Qed.

(** X19.  On a finite remote tree that answers every listing,
    [getFolderContents] terminates: some list [out] is returned for every
    fuel above the rank of the root, the same for all of them, with the
    service state and log untouched.  [out] is the depth-first walk of the
    tree: each listed file in listing order, a folder followed at once by the
    walk of its own listing. *)
Theorem getFolderContents_finite_tree : forall folderId,
    exists out,
      Walk children "" (children folderId) out
      /\ forall fuel w,
          rank folderId < fuel ->
          getFolderContents service fuel folderId w = (Returned (Some out), w).
Proof.
  exact getFolderContents_finite.
Qed.

(** X20.  On a finite remote tree the returned list covers the subtree and
    nothing else.  Every child of the root is in it under its own name; every
    child of a listed folder is in it under the folder's path, a slash and
    its name; and every element is one of these two. *)
Theorem getFolderContents_covers_tree : forall folderId fuel w,
    rank folderId < fuel ->
    exists out,
      getFolderContents service fuel folderId w = (Returned (Some out), w)
      /\ (forall file, In file (children folderId) ->
                       In {| listedFile := file; fullPath := name file |} out)
      /\ (forall parent file,
             In parent out -> isFolder (listedFile parent) = true ->
             In file (children (id (listedFile parent))) ->
             In {| listedFile := file;
                   fullPath := pathOf (fullPath parent) file |} out)
      /\ (forall e, In e out ->
                    (In (listedFile e) (children folderId)
                     /\ fullPath e = name (listedFile e))
                    \/ exists parent,
                        In parent out
                        /\ isFolder (listedFile parent) = true
                        /\ In (listedFile e) (children (id (listedFile parent)))
                        /\ fullPath e = pathOf (fullPath parent) (listedFile e)).
Proof.
  intros folderId fuel w Hfuel.
  destruct (getFolderContents_finite folderId) as [out [Hwalk Hrun]].
  exists out. split; [apply Hrun, Hfuel|]. split; [|split].
  - intros file Hin. exact (walk_lists_files _ _ _ Hwalk file Hin).
  - intros parent file Hp Hf Hin. exact (walk_closed _ _ _ Hwalk parent Hp Hf file Hin).
  - intros e He. exact (walk_only _ _ _ Hwalk e He).
Qed.

End FiniteTree.

(** ** The folder id of a link *)

Lemma afterPrefix_some : forall p s rest,
    afterPrefix p s = Some rest -> s = (p ++ rest)%string.
Proof.
  induction p as [|c p IH]; intros s rest H; simpl in *.
  - injection H as H. subst. reflexivity.
  - destruct s as [|d s]; [discriminate|].
    destruct (Ascii.eqb c d) eqn:E; [|discriminate].
    apply Ascii.eqb_eq in E. subst d. rewrite (IH s rest H). reflexivity.
Qed.

Lemma afterPrefix_app : forall p rest,
    afterPrefix p (p ++ rest) = Some rest.
Proof.
  induction p as [|c p IH]; intros rest; simpl.
  - reflexivity.
  - rewrite Ascii.eqb_refl. apply IH.
Qed.

Lemma takeWhile_split : forall p s,
    exists post, s = (takeWhile p s ++ post)%string /\ stopsAt p post.
Proof.
  intros p s. induction s as [|c r [post [Heq Hpost]]]; simpl.
  - exists "". split; [reflexivity | left; reflexivity].
  - destruct (p c) eqn:E.
    + exists post. split; [simpl; rewrite <- Heq; reflexivity | exact Hpost].
    + exists (String c r). split; [reflexivity|]. right. eauto.
Qed.

Lemma takeWhile_all : forall p s c,
    In c (list_ascii_of_string (takeWhile p s)) -> p c = true.
Proof.
  intros p s. induction s as [|d r IH]; intros c Hin; simpl in Hin.
  - contradiction.
  - destruct (p d) eqn:E; simpl in Hin; [|contradiction].
    destruct Hin as [Heq|Hin]; [subst; exact E | auto].
Qed.

Lemma takeWhile_app : forall p s post,
    (forall c, In c (list_ascii_of_string s) -> p c = true) ->
    stopsAt p post ->
    takeWhile p (s ++ post) = s.
Proof.
  intros p s post. induction s as [|d r IH]; intros Hall Hpost; simpl.
  - destruct Hpost as [Hp|[c [r [Hp Hc]]]]; subst post; simpl;
      [reflexivity | rewrite Hc; reflexivity].
  - rewrite (Hall d) by (left; reflexivity).
    rewrite IH; [reflexivity | | exact Hpost].
    intros c Hc. apply Hall. right. exact Hc.
Qed.

Lemma matchFoldersHere_some : forall s folderId,
    matchFoldersHere s = Some folderId ->
    folderId <> ""
    /\ (forall c, In c (list_ascii_of_string folderId) -> notSlashQuestion c = true)
    /\ exists post,
        s = ("folders/" ++ folderId ++ post)%string
        /\ stopsAt notSlashQuestion post.
Proof.
  intros s folderId H. unfold matchFoldersHere in H.
  destruct (afterPrefix "folders/" s) as [rest|] eqn:Hpre; [|discriminate].
  destruct (JS.isEmpty (takeWhile notSlashQuestion rest)) eqn:Hempty; [discriminate|].
  injection H as H. subst folderId.
  split; [intros Hnil; rewrite Hnil in Hempty; discriminate|].
  split; [intros c Hc; exact (takeWhile_all _ _ _ Hc)|].
  destruct (takeWhile_split notSlashQuestion rest) as [post [Heq Hpost]].
  exists post. split; [|exact Hpost].
  rewrite <- Heq. exact (afterPrefix_some _ _ _ Hpre).
Qed.

Lemma matchFolders_step : forall c r,
    matchFolders (String c r)
    = match matchFoldersHere (String c r) with
      | Some capture => Some capture
      | None => matchFolders r
      end.
Proof.
  intros c r. reflexivity.
Qed.

Lemma matchFolders_some : forall s folderId,
    matchFolders s = Some folderId ->
    folderId <> ""
    /\ (forall c, In c (list_ascii_of_string folderId) -> notSlashQuestion c = true)
    /\ exists pre post,
        s = (pre ++ "folders/" ++ folderId ++ post)%string
        /\ stopsAt notSlashQuestion post.
Proof.
  induction s as [|c r IH]; intros folderId H.
  - discriminate.
  - rewrite matchFolders_step in H.
    destruct (matchFoldersHere (String c r)) as [capture|] eqn:Hhere.
    + injection H as H. subst capture.
      destruct (matchFoldersHere_some _ _ Hhere) as [Hne [Hall [post [Heq Hpost]]]].
      split; [exact Hne|]. split; [exact Hall|].
      exists "", post. split; [exact Heq | exact Hpost].
    + destruct (IH folderId H) as [Hne [Hall [pre [post [Heq Hpost]]]]].
      split; [exact Hne|]. split; [exact Hall|].
      exists (String c pre), post. split; [rewrite Heq; reflexivity|].
      exact Hpost.
Qed.

Lemma matchFolders_finds : forall pre c rest,
    notSlashQuestion c = true ->
    matchFolders (pre ++ "folders/" ++ String c rest) <> None.
Proof.
  induction pre as [|a pre IH]; intros c rest Hc.
  - change ("" ++ "folders/" ++ String c rest)%string
      with (String "f" ("olders/" ++ String c rest)).
    rewrite matchFolders_step.
    change (String "f" ("olders/" ++ String c rest))
      with ("folders/" ++ String c rest)%string.
    unfold matchFoldersHere. rewrite afterPrefix_app. simpl. rewrite Hc. simpl.
    discriminate.
  - change ((String a pre) ++ "folders/" ++ String c rest)%string
      with (String a (pre ++ "folders/" ++ String c rest)).
    rewrite matchFolders_step.
    destruct (matchFoldersHere _); [discriminate | apply IH, Hc].
Qed.

(** X21.  A folder id returned by [extractFolderId] is never empty, has no
    [/] and no [?], and stands in the link right behind an occurrence of
    [folders/], up to the end of the link or to the next [/] or [?]. *)
Theorem extractFolderId_result : forall folderLink folderId,
    extractFolderId folderLink = FolderId folderId ->
    folderId <> ""
    /\ (forall c, In c (list_ascii_of_string folderId) -> notSlashQuestion c = true)
    /\ exists pre post,
        folderLink = (pre ++ "folders/" ++ folderId ++ post)%string
        /\ (post = "" \/ exists c r, post = String c r /\ notSlashQuestion c = false).
Proof.
  intros folderLink folderId H. unfold extractFolderId in H.
  destruct (matchFolders folderLink) as [found|] eqn:Hm; [|discriminate].
  injection H as H. subst found. exact (matchFolders_some _ _ Hm).
Qed.

(** X22.  Round trip: a non-empty id without [/] and [?], put behind
    [folders/] in a link whose part before it has no letter [f] (such as
    [https://drive.google.com/drive/]) and followed by nothing, by a query or
    by a further path segment, is extracted as it is. *)
Theorem extractFolderId_of_link : forall pre folderId post,
    (forall c, In c (list_ascii_of_string pre) -> c <> "f"%char) ->
    folderId <> "" ->
    (forall c, In c (list_ascii_of_string folderId) -> notSlashQuestion c = true) ->
    (post = "" \/ exists c r, post = String c r /\ notSlashQuestion c = false) ->
    extractFolderId (pre ++ "folders/" ++ folderId ++ post) = FolderId folderId.
Proof.
  intros pre folderId post Hpre Hne Hall Hpost. unfold extractFolderId.
  assert (Hm : matchFolders (pre ++ "folders/" ++ folderId ++ post) = Some folderId).
  { induction pre as [|a pre IH].
    - change ("" ++ "folders/" ++ folderId ++ post)%string
        with (String "f" ("olders/" ++ folderId ++ post)).
      rewrite matchFolders_step.
      change (String "f" ("olders/" ++ folderId ++ post))
        with ("folders/" ++ folderId ++ post)%string.
      unfold matchFoldersHere. rewrite afterPrefix_app.
      rewrite (takeWhile_app _ _ _ Hall Hpost).
      destruct folderId; [contradiction | reflexivity].
    - change ((String a pre) ++ "folders/" ++ folderId ++ post)%string
        with (String a (pre ++ "folders/" ++ folderId ++ post)).
      rewrite matchFolders_step.
      assert (Hhere : matchFoldersHere (String a (pre ++ "folders/" ++ folderId ++ post))
                      = None).
      { unfold matchFoldersHere. cbn [afterPrefix].
        destruct (Ascii.eqb "f" a) eqn:E; [|reflexivity].
        apply Ascii.eqb_eq in E. exfalso.
        apply (Hpre a); [left; reflexivity | symmetry; exact E]. }
      rewrite Hhere. apply IH. intros c Hc. apply Hpre. right. exact Hc. }
  rewrite Hm. reflexivity.
Qed.

(** X23.  [extractFolderId] rejects a link, with the message
    [Invalid Google Drive folder link], exactly when the link has no
    occurrence of [folders/] followed by a character other than [/] and
    [?]. *)
Theorem extractFolderId_rejects_iff : forall folderLink,
    extractFolderId folderLink = InvalidLink "Invalid Google Drive folder link"
    <-> ~ exists pre c rest,
          folderLink = (pre ++ "folders/" ++ String c rest)%string
          /\ notSlashQuestion c = true.
Proof.
  intros folderLink. unfold extractFolderId. split.
  - intros H [pre [c [rest [Heq Hc]]]].
    destruct (matchFolders folderLink) as [found|] eqn:Hm; [discriminate|].
    subst folderLink. exact (matchFolders_finds pre c rest Hc Hm).
  - intros Hnone.
    destruct (matchFolders folderLink) as [found|] eqn:Hm; [|reflexivity].
    exfalso. apply Hnone.
    destruct (matchFolders_some _ _ Hm) as [Hne [Hall [pre [post [Heq _]]]]].
    destruct found as [|c rest]; [contradiction|].
    exists pre, c, (rest ++ post)%string. split; [exact Heq|].
    apply Hall. left. reflexivity.
Qed.

(** ** Worked inputs of the further properties *)

(** X9 on a worked input: [report.txt] was edited (10 to 25 bytes) and moved
    from [root-folder] to [archive]. *)
Lemma changes_of_matched_item_witness :
  exists changes w' details,
    detectChanges Reference.diffChars JS.toLowerCase Reference.unavailable
                  [SampleDrive.reportEdited; Sample.notes]
                  (Some [Sample.report; Sample.notes]) Reference.world0
    = (Returned changes, w')
    /\ previousModifiedTime details = "2024-01-01T00:00:00.000Z"
    /\ newModifiedTime details = "2024-02-02T00:00:00.000Z"
    /\ sizeDelta details = 15%Z
    /\ filter (concerns "1") changes
       = [Modified SampleDrive.reportEdited details;
          Moved SampleDrive.reportEdited (Some "root-folder") (Some "archive")].
Proof.
  apply (changes_of_matched_item Reference.diffChars JS.toLowerCase unit string Reference.unavailable
           [SampleDrive.reportEdited; Sample.notes] [Sample.report; Sample.notes]
           SampleDrive.reportEdited Sample.report Reference.world0).
  - distinct_ids.
  - distinct_ids.
  - left; reflexivity.
  - left; reflexivity.
  - reflexivity.
Defined.

(** X10 on a worked input: [notes.txt] is new and nothing resembles it. *)
Lemma added_iff_no_candidate_witness :
  exists changes w',
    detectChanges Reference.diffChars JS.toLowerCase Reference.unavailable
                  [Sample.report; Sample.notes] (Some [Sample.report])
                  Reference.world0
    = (Returned changes, w')
    /\ (In (Added Sample.notes) changes
        <-> Forall (fun old => qualifies Reference.diffChars JS.toLowerCase Sample.notes old = false)
                   [Sample.report])
    /\ (Forall (fun old => qualifies Reference.diffChars JS.toLowerCase Sample.notes old = false)
               [Sample.report] ->
        filter (concerns (id Sample.notes)) changes = [Added Sample.notes]).
Proof.
  apply (added_iff_no_candidate Reference.diffChars JS.toLowerCase unit string Reference.unavailable
           [Sample.report; Sample.notes] [Sample.report] Sample.notes
           Reference.world0).
  - distinct_ids.
  - right; left; reflexivity.
  - absent_id.
Defined.

(** X12 on a worked input: [notes.txt] replaces two reports. *)
Lemma detectChanges_disjoint_snapshots_witness :
  detectChanges Reference.diffChars JS.toLowerCase Reference.unavailable
                [Sample.notes] (Some [Sample.report1; Sample.report2])
                Reference.world0
  = (Returned (map Added [Sample.notes]
               ++ map Removed [Sample.report1; Sample.report2]),
     Reference.world0).
Proof.
  apply (detectChanges_disjoint_snapshots Reference.diffChars JS.toLowerCase unit string
           Reference.unavailable [Sample.notes] [Sample.report1; Sample.report2]
           Reference.world0).
  - distinct_ids.
  - distinct_ids.
  - intros C [HC|[]]; subst C. absent_id.
  - intros C P [HC|[]] [HP|[HP|[]]]; subst C P; vm_compute; reflexivity.
Defined.

(** X13 on a worked input. *)
Lemma detectChanges_empty_side_witness :
  detectChanges Reference.diffChars JS.toLowerCase Reference.unavailable
                [] (Some [Sample.report; Sample.notes]) Reference.world0
  = (Returned (map Removed [Sample.report; Sample.notes]), Reference.world0)
  /\ detectChanges Reference.diffChars JS.toLowerCase Reference.unavailable
                   [Sample.report; Sample.notes] (Some []) Reference.world0
     = (Returned (map Added [Sample.report; Sample.notes]), Reference.world0).
Proof.
  apply (detectChanges_empty_side Reference.diffChars JS.toLowerCase unit string
           Reference.unavailable [Sample.report; Sample.notes] Reference.world0).
  distinct_ids.
Defined.

(** X14 on a worked input: two plain text files, one of them edited. *)
Lemma detectChanges_without_documents_witness :
  exists changes,
    detectChanges Reference.diffChars JS.toLowerCase Reference.unavailable
                  [SampleDrive.reportEdited; Sample.notes]
                  (Some [Sample.report]) Reference.world0
    = (Returned changes, Reference.world0)
    /\ forall item details,
        In (Modified item details) changes -> revisionInfo details = None.
Proof.
  apply (detectChanges_without_documents Reference.diffChars JS.toLowerCase unit string
           Reference.unavailable [SampleDrive.reportEdited; Sample.notes]
           [Sample.report] Reference.world0).
  intros X [HX|[HX|[]]]; subst X; reflexivity.
Defined.

(** X16 on a worked input: the folder [docs] has no parents. *)
Lemma getParentFolderName_root_witness :
  getParentFolderName SampleDrive.filesGet "d1" Reference.world0
  = (Returned (Some "root"), {| drive := tt; logged := [] |}).
Proof.
  apply (getParentFolderName_root unit string SampleDrive.filesGet "d1"
           Reference.world0
           {| dataParents := None; dataName := Some "docs" |} tt).
  - reflexivity.
  - left; reflexivity.
Defined.

(** X18 on a worked input: the folder [old] holds one plain file. *)
Lemma getFolderContents_flat_folder_witness :
  getFolderContents SampleDrive.filesList 1 "d2" Reference.world0
  = (Returned (Some [{| listedFile := Sample.file "b" "b.txt"; fullPath := "b.txt" |}]),
     {| drive := tt; logged := [] |}).
Proof.
  apply (getFolderContents_flat_folder unit string SampleDrive.filesList 0 "d2"
           Reference.world0 [Sample.file "b" "b.txt"] tt).
  - reflexivity.
  - repeat constructor.
Defined.

Lemma sample_rank_decreases : forall folderId file,
    In file (SampleDrive.children folderId) -> isFolder file = true ->
    SampleDrive.rank (id file) < SampleDrive.rank folderId.
Proof.
  intros folderId file Hin Hfolder.
  unfold SampleDrive.children, SampleDrive.rank in *.
  destruct (String.eqb folderId "root-folder");
    [|destruct (String.eqb folderId "d1"); [|destruct (String.eqb folderId "d2")]];
    simpl in Hin;
    repeat (destruct Hin as [Hin|Hin]; [subst file; try discriminate; simpl; lia|]);
    contradiction.
Qed.

(** X19 on a worked input: the sample tree, walked from its root. *)
Lemma getFolderContents_finite_tree_witness :
  exists out,
    Walk SampleDrive.children "" (SampleDrive.children "root-folder") out
    /\ forall fuel (w : World unit string),
        SampleDrive.rank "root-folder" < fuel ->
        getFolderContents (listing SampleDrive.children) fuel "root-folder" w
        = (Returned (Some out), w).
Proof.
  apply (getFolderContents_finite_tree unit string SampleDrive.children
           SampleDrive.rank sample_rank_decreases "root-folder").
Defined.

(** X20 on a worked input: the sample tree with fuel 4. *)
Lemma getFolderContents_covers_tree_witness :
  exists out,
    getFolderContents (listing SampleDrive.children) 4 "root-folder" Reference.world0
    = (Returned (Some out), Reference.world0)
    /\ (forall file, In file (SampleDrive.children "root-folder") ->
                     In {| listedFile := file; fullPath := name file |} out)
    /\ (forall parent file,
           In parent out -> isFolder (listedFile parent) = true ->
           In file (SampleDrive.children (id (listedFile parent))) ->
           In {| listedFile := file;
                 fullPath := pathOf (fullPath parent) file |} out)
    /\ (forall e, In e out ->
                  (In (listedFile e) (SampleDrive.children "root-folder")
                   /\ fullPath e = name (listedFile e))
                  \/ exists parent,
                      In parent out
                      /\ isFolder (listedFile parent) = true
                      /\ In (listedFile e)
                            (SampleDrive.children (id (listedFile parent)))
                      /\ fullPath e = pathOf (fullPath parent) (listedFile e)).
Proof.
  apply (getFolderContents_covers_tree unit string SampleDrive.children
           SampleDrive.rank sample_rank_decreases "root-folder" 4 Reference.world0).
  vm_compute. lia.
Defined.

(** The walk of the sample tree, evaluated. *)
Example getFolderContents_sample_tree :
  fst (getFolderContents SampleDrive.filesList 4 "root-folder" Reference.world0)
  = Returned
      (Some [{| listedFile := SampleDrive.folder "d1" "docs"; fullPath := "docs" |};
             {| listedFile := Sample.file "a" "a.txt"; fullPath := "docs/a.txt" |};
             {| listedFile := SampleDrive.folder "d2" "old"; fullPath := "docs/old" |};
             {| listedFile := Sample.file "b" "b.txt"; fullPath := "docs/old/b.txt" |};
             {| listedFile := Sample.notes; fullPath := "notes.txt" |}]).
Proof.
  vm_compute. reflexivity.
Qed.

(** X21 on a worked input. *)
Lemma extractFolderId_result_witness :
  "1AbC_d-9" <> ""
  /\ (forall c, In c (list_ascii_of_string "1AbC_d-9") -> notSlashQuestion c = true)
  /\ exists pre post,
      "https://drive.google.com/drive/u/0/folders/1AbC_d-9?usp=sharing"
      = (pre ++ "folders/" ++ "1AbC_d-9" ++ post)%string
      /\ (post = "" \/ exists c r, post = String c r /\ notSlashQuestion c = false).
Proof.
  apply (extractFolderId_result
           "https://drive.google.com/drive/u/0/folders/1AbC_d-9?usp=sharing"
           "1AbC_d-9").
  vm_compute. reflexivity.
Defined.

(** X22 on a worked input: the usual form of a shared folder link. *)
Lemma extractFolderId_of_link_witness :
  extractFolderId ("https://drive.google.com/drive/" ++ "folders/" ++ "1AbC_d-9"
                   ++ "?usp=sharing")
  = FolderId "1AbC_d-9".
Proof.
  apply (extractFolderId_of_link "https://drive.google.com/drive/" "1AbC_d-9"
           "?usp=sharing").
  - intros c Hc. simpl in Hc.
    repeat (destruct Hc as [Hc|Hc]; [subst c; discriminate|]). contradiction.
  - discriminate.
  - intros c Hc. simpl in Hc.
    repeat (destruct Hc as [Hc|Hc]; [subst c; reflexivity|]). contradiction.
  - right. exists "?"%char, "usp=sharing". split; reflexivity.
Defined.
